(** * DCAT-OWL adapter: the catalog graph engine of [DCAT.py]

    A shallow embedding of class [DCATCatalog] (file
    [specific-provisioner/src/DCAT.py]) and the properties of its
    operations: [dataset_exists], [delete_dataset], [add_dataset],
    [add_foreign_key_relationship], [is_business_term_in_fibo],
    [list_fibo_business_terms] and [serialize_catalog]; with them,
    [rename_key] of [main.py].

    The rdflib [Graph] is a finite set of triples ([gset]); adding a triple
    that is already there changes nothing.  Blank nodes are numbered, and
    the number of the next [BNode()] is part of the state. *)

From Stdlib Require Import Ascii.
From stdpp Require Import gmap strings list pretty.

Open Scope string_scope.

Set Warnings "-level-tolerance,-clear-no-such-hyp".

(** ** RDF terms and graphs (rdflib) *)

Inductive node : Type :=
  | URIRef (uri : string)
  | BNode (id : nat)
  | Literal (lexical : string) (datatype : option string) (lang : option string).

#[global] Instance node_eq_dec : EqDecision node.
Proof. solve_decision. Defined.

Definition node_to_sum (n : node)
  : string + (nat + string * option string * option string) :=
  match n with
  | URIRef u => inl u
  | BNode b => inr (inl b)
  | Literal l d a => inr (inr (l, d, a))
  end.

Definition node_of_sum
  (x : string + (nat + string * option string * option string)) : node :=
  match x with
  | inl u => URIRef u
  | inr (inl b) => BNode b
  | inr (inr (l, d, a)) => Literal l d a
  end.

#[global] Instance node_countable : Countable node.
Proof. apply (inj_countable' node_to_sum node_of_sum). by intros []. Defined.

(** [Literal(s)] of a Python string: no datatype, no language tag. *)
Definition Lit (s : string) : node := Literal s None None.

Definition triple : Type := node * node * node.

Definition subj (t : triple) : node := t.1.1.
Definition pred (t : triple) : node := t.1.2.
Definition obj (t : triple) : node := t.2.

Abbreviation Graph := (gset triple).

(** A triple pattern; [None] is the wildcard of [Graph.triples] and
    [Graph.remove]. *)
Definition pattern : Type := option node * option node * option node.

Definition match_pos (p : option node) (n : node) : bool :=
  match p with
  | None => true
  | Some m => bool_decide (m = n)
  end.

Definition matches (p : pattern) (t : triple) : bool :=
  match_pos p.1.1 (subj t) && match_pos p.1.2 (pred t) && match_pos p.2 (obj t).

Definition exactly (t : triple) : pattern := (Some (subj t), Some (pred t), Some (obj t)).

(** [Graph.add] *)
Definition add (t : triple) (G : Graph) : Graph := {[ t ]} ∪ G.

(** [Graph.remove]: every triple that matches the pattern goes. *)
Definition remove (p : pattern) (G : Graph) : Graph :=
  filter (λ t, ¬ matches p t) G.

(** [list(Graph.triples(pattern))] *)
Definition triples (p : pattern) (G : Graph) : list triple :=
  elements (filter (λ t, matches p t) G).

(** [list(Graph.objects(s, p))] *)
Definition objects (s p : node) (G : Graph) : list node :=
  obj <$> triples (Some s, Some p, None) G.

(** ** Namespaces *)

Definition Namespace : Type := string.

(** [ns[name]] and [ns.name]: the namespace followed by the name. *)
Definition term (ns : Namespace) (name : string) : node := URIRef (ns +:+ name).
Arguments term : simpl never.

Definition RDF : Namespace := "http://www.w3.org/1999/02/22-rdf-syntax-ns#".
Definition RDFS : Namespace := "http://www.w3.org/2000/01/rdf-schema#".
Definition OWL : Namespace := "http://www.w3.org/2002/07/owl#".
Definition XSD : Namespace := "http://www.w3.org/2001/XMLSchema#".
Definition DCAT : Namespace := "http://www.w3.org/ns/dcat#".
Definition DCTERMS : Namespace := "http://purl.org/dc/terms/".
Definition SKOS : Namespace := "http://www.w3.org/2004/02/skos/core#".

(** [setup_namespaces] *)
Definition CATALOG_NS : Namespace := "http://data.example.com/catalog/".
Definition DATASET_NS : Namespace := "http://data.example.com/dataset/".
Definition FIELD_NS : Namespace := "http://data.example.com/fields/".
Definition FIBO_NS : Namespace :=
  "https://spec.edmcouncil.org/fibo/ontology/master/2020Q1/prod.fibo-quickstart.ttl#".
Definition EX_NS : Namespace := "http://example.org/terms#".

(** ** The catalog object *)

Record DCATCatalog : Type := mkCatalog {
  g : Graph;              (* self.g *)
  catalog_uri : string;   (* the text of self.catalog *)
  next_bnode : nat        (* the number the next BNode() gets *)
}.

(** [self.catalog = URIRef(catalog_uri)] *)
Definition catalog (self : DCATCatalog) : node := URIRef (catalog_uri self).

Definition with_g (self : DCATCatalog) (G : Graph) : DCATCatalog :=
  mkCatalog G (catalog_uri self) (next_bnode self).

(** [__init__], after the ontology document has been parsed into [ontology];
    [fresh] is above the blank nodes of the ontology. *)
Definition init (catalog_uri : string) (ontology : Graph) (fresh : nat) : DCATCatalog :=
  let catalog := URIRef catalog_uri in
  let G := add (catalog, term RDF "type", term DCAT "Catalog") ∅ in
  let G := add (catalog, term DCTERMS "title", Lit "Main Data Catalog") G in
  let G := add (catalog, term DCTERMS "description",
                Lit "This is the main data catalog for our organization") G in
  mkCatalog (ontology ∪ G) catalog_uri fresh.

Definition default_catalog_uri : string := "http://data.example.com/catalog/main-catalog".

(** Python truth of an optional string: [None] and the empty string are false. *)
Definition truthy (o : option string) : option string :=
  match o with
  | Some s => if bool_decide (s = "") then None else Some s
  | None => None
  end.

(** [if xs: for x in xs: ...] runs the body for the elements of [xs], and not
    at all for [None] and for the empty list. *)
Definition items {A} (o : option (list A)) : list A := default [] o.

(** *** [is_business_term_in_fibo] *)

(** The term is pasted between double quotes into the text of the query.
    It is read back as the string it is when it has no double quote, no
    backslash, no line break and no tab (the parser replaces the tabs of the
    text by spaces before it reads it); for any other term the text is no
    longer the query below, and the model gives no result. *)
Definition plain_char (c : ascii) : bool :=
  negb (bool_decide (c = "034"%char)) && negb (bool_decide (c = "092"%char))
  && negb (bool_decide (c = "010"%char)) && negb (bool_decide (c = "013"%char))
  && negb (bool_decide (c = "009"%char)).

Fixpoint plain (s : string) : bool :=
  match s with
  | EmptyString => true
  | String c r => plain_char c && plain r
  end.

(** SPARQL [str()]: the lexical form of a literal, the text of an IRI, an
    error (the filter drops the row) for a blank node. *)
Definition str (n : node) : option string :=
  match n with
  | URIRef u => Some u
  | Literal l _ _ => Some l
  | BNode _ => None
  end.

(** [f'{row.term}'] *)
Definition format_node (n : node) : string :=
  match n with
  | URIRef u => u
  | BNode b => "N" +:+ pretty b
  | Literal l _ _ => l
  end.

(** The rows of [?term rdfs:label ?label . FILTER (str(?label) = v)]: one for
    each matching triple.  rdflib gives them in the order of its store; here
    they come in the order of [elements].  Which rows there are does not
    depend on that order; which one is first does, when there is more than
    one. *)
Definition label_rows (v : string) (G : Graph) : list triple :=
  elements (filter (λ t, pred t = term RDFS "label" ∧ str (obj t) = Some v) G).

Definition is_business_term_in_fibo (self : DCATCatalog) (term : string)
  : option (list string) :=
  if plain term
  then Some ((λ row, format_node (subj row)) <$> label_rows term (g self))
  else None.

(** *** [dataset_exists] *)

Definition dataset_exists (self : DCATCatalog) (identifier : string) : bool :=
  bool_decide ((term DATASET_NS identifier, term RDF "type", term DCAT "Dataset") ∈ g self).

(** *** [delete_dataset] *)

Definition remove_all (ts : list triple) (G : Graph) : Graph :=
  foldl (λ G t, remove (exactly t) G) G ts.

Definition delete_dataset (self : DCATCatalog) (identifier : string) : DCATCatalog :=
  let dataset := term DATASET_NS identifier in
  let G := g self in
  let fields := objects dataset (term FIELD_NS "hasField") G in
  let G := foldl (λ G field,
                    let triples_to_remove := triples (Some field, None, None) G in
                    remove_all triples_to_remove G) G fields in
  let G := remove (Some dataset, Some (term FIELD_NS "hasField"), None) G in
  let business_terms := objects dataset (term RDFS "seeAlso") G in
  let G := foldl (λ G bt, remove (Some dataset, Some (term RDFS "seeAlso"), Some bt) G)
                 G business_terms in
  let triples_to_remove := triples (Some dataset, None, None) G in
  let G := remove_all triples_to_remove G in
  let G := remove (Some (catalog self), Some (term DCAT "dataset"), Some dataset) G in
  with_g self G.

(** *** [add_dataset] *)

(** A field dictionary: [field['name']], [field['type']], and the optional
    keys ['description'] and ['business_terms']. *)
Record field : Type := mkField {
  field_name : string;
  field_type : string;
  field_description : option string;
  field_business_terms : option (list string)
}.

(** The body of [for bt in field['business_terms']]. *)
Definition link_business_term (self : DCATCatalog) (field_node : node) (bt : string)
  : option DCATCatalog :=
  matches ← is_business_term_in_fibo self bt;
  match matches with
  | m0 :: _ =>
      let bt_uri := term FIBO_NS m0 in
      let G := add (field_node, term FIELD_NS "hasBusinessTerm", bt_uri) (g self) in
      let G := add (bt_uri, term RDF "type", term OWL "Class") G in
      Some (with_g self G)
  | [] => Some self
  end.

Fixpoint link_business_terms (self : DCATCatalog) (field_node : node) (bts : list string)
  : option DCATCatalog :=
  match bts with
  | [] => Some self
  | bt :: rest =>
      self ← link_business_term self field_node bt;
      link_business_terms self field_node rest
  end.

(** The body of [for field in fields]. *)
Definition add_field (self : DCATCatalog) (dataset : node) (f : field)
  : option DCATCatalog :=
  let field_node := BNode (next_bnode self) in
  let self := mkCatalog (g self) (catalog_uri self) (S (next_bnode self)) in
  let G := add (field_node, term RDF "type", term FIELD_NS "Field") (g self) in
  let G := add (field_node, term FIELD_NS "fieldName", Lit (field_name f)) G in
  let G := add (field_node, term FIELD_NS "fieldType", Lit (field_type f)) G in
  let G := match field_description f with
           | Some d => add (field_node, term FIELD_NS "fieldDescription", Lit d) G
           | None => G
           end in
  self ← match field_business_terms f with
         | Some bts => link_business_terms (with_g self G) field_node bts
         | None => Some (with_g self G)
         end;
  Some (with_g self (add (dataset, term FIELD_NS "hasField", field_node) (g self))).

Fixpoint add_fields (self : DCATCatalog) (dataset : node) (fields : list field)
  : option DCATCatalog :=
  match fields with
  | [] => Some self
  | f :: rest =>
      self ← add_field self dataset f;
      add_fields self dataset rest
  end.

(** [Literal(issued, datatype=XSD.date)] is a literal of type [xsd:date];
    rdflib writes its lexical form anew when it reads the string as a date,
    the model keeps the string.  The properties below say of this literal
    that it is there and what its type is. *)
Definition add_dataset (self : DCATCatalog) (identifier title description : string)
    (theme : option string) (keywords : option (list string)) (issued : option string)
    (business_terms : option (list string)) (fields : option (list field))
  : option (bool * DCATCatalog) :=
  let self := if dataset_exists self identifier
              then delete_dataset self identifier else self in
  let dataset := term DATASET_NS identifier in
  let G := add (dataset, term RDF "type", term DCAT "Dataset") (g self) in
  let G := add (dataset, term DCTERMS "title", Lit title) G in
  let G := add (dataset, term DCTERMS "description", Lit description) G in
  let '(G, n) :=
    match truthy theme with
    | Some theme =>
        let theme_node := BNode (next_bnode self) in
        let G := add (theme_node, term RDF "type", term SKOS "Concept") G in
        let G := add (theme_node, term SKOS "prefLabel", Lit theme) G in
        (add (dataset, term DCAT "theme", theme_node) G, S (next_bnode self))
    | None => (G, next_bnode self)
    end in
  let G := foldl (λ G keyword, add (dataset, term DCAT "keyword", Lit keyword) G)
                 G (items keywords) in
  let G := match truthy issued with
           | Some issued =>
               add (dataset, term DCTERMS "issued",
                    Literal issued (Some (XSD +:+ "date")) None) G
           | None => G
           end in
  let G := foldl (λ G t,
                    let term_uri := term FIBO_NS t in
                    let G := add (dataset, term RDFS "seeAlso", term_uri) G in
                    add (term_uri, term RDF "type", term OWL "Class") G)
                 G (items business_terms) in
  self ← add_fields (mkCatalog G (catalog_uri self) n) dataset (items fields);
  Some (true, with_g self (add (catalog self, term DCAT "dataset", dataset) (g self))).

(** *** [add_foreign_key_relationship] *)

Inductive exn : Type := ValueError (msg : string).

Definition add_foreign_key_relationship (self : DCATCatalog)
    (from_dataset to_dataset : string) (description : option string)
  : (bool + exn) * DCATCatalog :=
  if negb (dataset_exists self from_dataset) || negb (dataset_exists self to_dataset)
  then (inr (ValueError "One or both datasets do not exist."), self)
  else
    let from_uri := term DATASET_NS from_dataset in
    let to_uri := term DATASET_NS to_dataset in
    let G := add (from_uri, term EX_NS "hasForeignKeyTo", to_uri) (g self) in
    let G := match truthy description with
             | Some description => add (from_uri, term RDFS "comment", Lit description) G
             | None => G
             end in
    (inl true, with_g self G).

(** *** [serialize_catalog] *)

Section Serialize.
(** rdflib's [Graph.serialize(format, indent)] and [json.loads], as they
    are: functions of their arguments. *)
Context {document : Type}.
Variable Graph_serialize : Graph → string → Z → string.
Variable json_loads : string → document.

Definition serialize_catalog (self : DCATCatalog) (format : string) (indent : Z)
  : document :=
  let json_ld := Graph_serialize (g self) "json-ld" 2%Z in
  let json_ld_dict := json_loads json_ld in
  json_ld_dict.
End Serialize.


(** *** [list_fibo_business_terms] *)

(** The filter is pasted between single quotes into the text of the query;
    it is read back as the string it is when it has no single quote, no
    backslash, no line break and no tab. *)
Definition plain1_char (c : ascii) : bool :=
  negb (bool_decide (c = "039"%char)) && negb (bool_decide (c = "092"%char))
  && negb (bool_decide (c = "010"%char)) && negb (bool_decide (c = "013"%char))
  && negb (bool_decide (c = "009"%char)).

Fixpoint plain1 (s : string) : bool :=
  match s with
  | EmptyString => true
  | String c r => plain1_char c && plain1 r
  end.

(** The rows of [SELECT DISTINCT ?term ?label WHERE { ?term rdfs:label ?label
    . FILTER ... }]: one for each label triple that passes the filter, in the
    order of [elements] (rdflib: in the order of its store). *)
Definition filtered_label_rows (filter_condition : node → bool) (G : Graph) : list triple :=
  elements (filter (λ t, pred t = term RDFS "label" ∧ filter_condition (obj t)) G).

(** [sys.maxsize] of a 64-bit CPython. *)
Definition sys_maxsize : Z := 9223372036854775807%Z.

(** [LIMIT n]: the number is written without sign, or the text is no query;
    the rows are cut by [itertools.islice(rows, 0, n)], which takes the
    first [n] rows and raises [ValueError] when [n] is above [sys.maxsize]. *)
Definition limit_rows (n : Z) (rows : list triple) : option (list triple) :=
  if bool_decide (0 ≤ n ≤ sys_maxsize)%Z then Some (take (Z.to_nat n) rows) else None.

Section list_terms.
(** rdflib's value of [CONTAINS(LCASE(?label), LCASE(s))] on a label. *)
Variable contains_lcase : node → string → bool.

(** [limit] and [filter] are tested for truth: [None], [0] and the empty
    string add nothing to the query.  The result is [None] when the call
    returns no list: the text is not the query (a filter that is not
    [plain1], a limit with a sign) or [islice] refuses the limit. *)
Definition list_fibo_business_terms (self : DCATCatalog) (limit : option Z)
    (filter' : option string) : option (list string) :=
  match (match truthy filter' with
         | Some s => if plain1 s then Some (λ label, contains_lcase label s) else None
         | None => Some (λ _, true)
         end) with
  | None => None
  | Some filter_condition =>
      let results := filtered_label_rows filter_condition (g self) in
      match (match limit with
             | None => Some results
             | Some n => if bool_decide (n = 0%Z) then Some results
                         else limit_rows n results
             end) with
      | None => None
      | Some results =>
          Some ((λ row, format_node (subj row) +:+ " --> " +:+ format_node (obj row))
                  <$> results)
      end
  end.
End list_terms.

(** *** [rename_key] of [main.py] *)

Inductive key_error : Type := KeyError (msg : string).

(** The dictionary is changed in place; the model returns it. *)
Definition rename_key {V} (dictionary : gmap string V) (old_key new_key : string)
  : key_error + gmap string V :=
  match dictionary !! old_key with
  | Some v => inr (<[new_key := v]> (delete old_key dictionary))
  | None => inl (KeyError ("Key '" +:+ old_key +:+ "' not found in dictionary"))
  end.

(** ** Definitions used to state the properties *)

(** The label triples of a graph: all that the term query reads. *)
Definition labels (G : Graph) : Graph := filter (λ t, pred t = term RDFS "label") G.

(** The identifiers the term query returns on a graph. *)
Definition resolve (G : Graph) (bt : string) : list string :=
  (λ row, format_node (subj row)) <$> label_rows bt G.

(** A node is typed as an ontology class. *)
Definition ontology_typed (G : Graph) (n : node) : Prop :=
  (n, term RDF "type", term OWL "Class") ∈ G.

(** The labels of a field's business terms are read back by the term query
    as they are. *)
Definition plain_field (f : field) : bool :=
  forallb plain (items (field_business_terms f)).

Definition plain_fields (fs : option (list field)) : bool :=
  forallb plain_field (items fs).

(** *** The triples one call of [add_dataset] writes *)

(** The edge from a field to the term of one of its labels, the term query
    being answered on [L]. *)
Definition bt_edges (L : Graph) (field_node : node) (bts : list string) : Graph :=
  ⋃ ((λ bt, match resolve L bt with
            | m0 :: _ => {[ (field_node, term FIELD_NS "hasBusinessTerm", term FIBO_NS m0) ]}
            | [] => ∅
            end) <$> bts).

(** The typing of those terms. *)
Definition bt_classes (L : Graph) (bts : list string) : Graph :=
  ⋃ ((λ bt, match resolve L bt with
            | m0 :: _ => {[ (term FIBO_NS m0, term RDF "type", term OWL "Class") ]}
            | [] => ∅
            end) <$> bts).

Definition bt_links (L : Graph) (field_node : node) (bts : list string) : Graph :=
  bt_edges L field_node bts ∪ bt_classes L bts.

(** The triples of a field that gets blank node [n]: those about the field
    node and the edge to it. *)
Definition field_own (L : Graph) (dataset : node) (n : nat) (f : field) : Graph :=
  {[ (BNode n, term RDF "type", term FIELD_NS "Field");
     (BNode n, term FIELD_NS "fieldName", Lit (field_name f));
     (BNode n, term FIELD_NS "fieldType", Lit (field_type f)) ]}
  ∪ (match field_description f with
     | Some d => {[ (BNode n, term FIELD_NS "fieldDescription", Lit d) ]}
     | None => ∅
     end)
  ∪ bt_edges L (BNode n) (items (field_business_terms f))
  ∪ {[ (dataset, term FIELD_NS "hasField", BNode n) ]}.

Definition field_triples (L : Graph) (dataset : node) (n : nat) (f : field) : Graph :=
  field_own L dataset n f ∪ bt_classes L (items (field_business_terms f)).

Fixpoint fields_own (L : Graph) (dataset : node) (n : nat) (fs : list field) : Graph :=
  match fs with
  | [] => ∅
  | f :: rest => field_own L dataset n f ∪ fields_own L dataset (S n) rest
  end.

Fixpoint fields_classes (L : Graph) (fs : list field) : Graph :=
  match fs with
  | [] => ∅
  | f :: rest => bt_classes L (items (field_business_terms f)) ∪ fields_classes L rest
  end.

Definition fields_triples (L : Graph) (dataset : node) (n : nat) (fs : list field) : Graph :=
  fields_own L dataset n fs ∪ fields_classes L fs.

Section payload.
Variables (identifier title description : string).
Variables (theme : option string) (keywords : option (list string)).
Variables (issued : option string) (business_terms : option (list string)).
Variable fields : option (list field).

(** The state in which [add_dataset] starts to write. *)
Definition cleared (self : DCATCatalog) : DCATCatalog :=
  if dataset_exists self identifier then delete_dataset self identifier else self.

(** The blank nodes a call takes for the theme. *)
Definition theme_nodes : nat :=
  match truthy theme with Some _ => 1 | None => 0 end.

Definition theme_node_triples (n : nat) : Graph :=
  match truthy theme with
  | Some theme => {[ (BNode n, term RDF "type", term SKOS "Concept");
                     (BNode n, term SKOS "prefLabel", Lit theme) ]}
  | None => ∅
  end.

Definition theme_edge (n : nat) : Graph :=
  match truthy theme with
  | Some _ => {[ (term DATASET_NS identifier, term DCAT "theme", BNode n) ]}
  | None => ∅
  end.

Definition keyword_triples : Graph :=
  list_to_set ((λ keyword, (term DATASET_NS identifier, term DCAT "keyword", Lit keyword))
                 <$> items keywords).

Definition issued_triples : Graph :=
  match truthy issued with
  | Some issued => {[ (term DATASET_NS identifier, term DCTERMS "issued",
                       Literal issued (Some (XSD +:+ "date")) None) ]}
  | None => ∅
  end.

Definition seeAlso_triples : Graph :=
  list_to_set ((λ t, (term DATASET_NS identifier, term RDFS "seeAlso", term FIBO_NS t))
                 <$> items business_terms).

Definition class_triples : Graph :=
  list_to_set ((λ t, (term FIBO_NS t, term RDF "type", term OWL "Class"))
                 <$> items business_terms).

(** The triples about the dataset node, but for the edges to blank nodes. *)
Definition dataset_triples : Graph :=
  {[ (term DATASET_NS identifier, term RDF "type", term DCAT "Dataset");
     (term DATASET_NS identifier, term DCTERMS "title", Lit title);
     (term DATASET_NS identifier, term DCTERMS "description", Lit description) ]}
  ∪ keyword_triples ∪ issued_triples ∪ seeAlso_triples.

(** The triples of the dataset node and of its field nodes. *)
Definition own_triples (L : Graph) (n : nat) : Graph :=
  dataset_triples ∪ theme_edge n
  ∪ fields_own L (term DATASET_NS identifier) (n + theme_nodes) (items fields).

(** The triples about other nodes: the theme node, the terms, the catalog. *)
Definition other_triples (L : Graph) (cat : node) (n : nat) : Graph :=
  theme_node_triples n ∪ class_triples ∪ fields_classes L (items fields)
  ∪ {[ (cat, term DCAT "dataset", term DATASET_NS identifier) ]}.

(** All the triples one call writes, with [n] the first free blank node
    and the term query answered on [L]. *)
Definition written (L : Graph) (cat : node) (n : nat) : Graph :=
  own_triples L n ∪ other_triples L cat n.
End payload.

(** *** Stores *)

Definition is_BNode (n : node) : bool :=
  match n with BNode _ => true | _ => false end.

(** Field nodes are anonymous: every [hasField] edge ends in a blank node. *)
Definition anonymous_fields (G : Graph) : Prop :=
  set_Forall (λ t, pred t = term FIELD_NS "hasField" → is_BNode (obj t)) G.

Definition node_below (n : nat) (x : node) : Prop :=
  match x with BNode b => b < n | _ => True end.

#[global] Instance node_below_dec n x : Decision (node_below n x).
Proof. destruct x; simpl; apply _. Defined.

(** [BNode()] is new: no triple of the store is about a blank node that is
    still to come. *)
Definition fresh_bnodes (self : DCATCatalog) : Prop :=
  set_Forall (λ t, node_below (next_bnode self) (subj t)) (g self).

(** A dataset node that is not typed as a dataset has no triples: all the
    triples about it come and go with its registration. *)
Definition registered_or_absent (self : DCATCatalog) (identifier : string) : Prop :=
  dataset_exists self identifier = false →
  set_Forall (λ t, subj t ≠ term DATASET_NS identifier) (g self).

#[global] Instance registered_or_absent_dec self identifier :
  Decision (registered_or_absent self identifier).
Proof. unfold registered_or_absent. apply _. Defined.

(** The subtree of a dataset: the triples of the dataset node and of its
    field nodes. *)
Definition subtree (G : Graph) (identifier : string) : Graph :=
  filter (λ t, subj t = term DATASET_NS identifier
               ∨ (term DATASET_NS identifier, term FIELD_NS "hasField", subj t) ∈ G) G.

(** The catalog's edge to the dataset, when the catalog node is the dataset
    node itself. *)
Definition catalog_edge_own (identifier : string) (cat : node) : Graph :=
  if decide (cat = term DATASET_NS identifier)
  then {[ (cat, term DCAT "dataset", term DATASET_NS identifier) ]}
  else ∅.

(** Renaming of blank nodes. *)
Definition rename_node (ρ : nat → nat) (x : node) : node :=
  match x with BNode b => BNode (ρ b) | _ => x end.

Definition rename_triple (ρ : nat → nat) (t : triple) : triple :=
  (rename_node ρ (subj t), rename_node ρ (pred t), rename_node ρ (obj t)).

Definition rename (ρ : nat → nat) (G : Graph) : Graph := set_map (rename_triple ρ) G.

Definition foreign_key (from_dataset to_dataset : string) : triple :=
  (term DATASET_NS from_dataset, term EX_NS "hasForeignKeyTo", term DATASET_NS to_dataset).

Definition keyword_triple (identifier keyword : string) : triple :=
  (term DATASET_NS identifier, term DCAT "keyword", Lit keyword).

(** *** Concrete stores *)

(** The catalog right after [DCATCatalog()] when the ontology document is
    empty. *)
Definition empty_catalog : DCATCatalog := init default_catalog_uri ∅ 0.

(** An ontology with one labelled node. *)
Definition T1 : string :=
  "https://spec.edmcouncil.org/fibo/ontology/BE/LegalEntities/LegalPersons/LegalEntity".

Definition legal_entity_ontology : Graph :=
  {[ (URIRef T1, term RDFS "label", Lit "Legal Entity") ]}.

Definition legal_entity_catalog : DCATCatalog :=
  init default_catalog_uri legal_entity_ontology 0.


(** The fields of the [orders] scenario. *)
Definition orders_fields : list field :=
  [ mkField "order_id" "string" None None;
    mkField "customer" "string" None (Some ["Legal Entity"]) ].

(** The state a call leaves, whatever it returned. *)
Definition state_after (self : DCATCatalog) (r : option (bool * DCATCatalog)) : DCATCatalog :=
  from_option snd self r.

(** The [orders] scenario, with a dataset-level term. *)
Definition orders_catalog : DCATCatalog :=
  state_after legal_entity_catalog
    (add_dataset legal_entity_catalog "orders" "Orders" "Order records" None None None
       (Some ["LegalEntity"]) (Some orders_fields)).

Definition one_dataset : DCATCatalog :=
  state_after empty_catalog
    (add_dataset empty_catalog "a" "A" "first" None None None None None).

Definition two_datasets : DCATCatalog :=
  state_after one_dataset
    (add_dataset one_dataset "b" "B" "second" None None None None None).

Definition linked_datasets : DCATCatalog :=
  (add_foreign_key_relationship two_datasets "a" "b" None).2.

(** Datasets [a] and [b] are registered, [a] gets a foreign key to [b], and
    [b] is deleted. *)
Definition dangling_catalog : DCATCatalog := delete_dataset linked_datasets "b".

(** A dataset with a theme, registered once and twice. *)
Definition themed_once : DCATCatalog :=
  state_after empty_catalog
    (add_dataset empty_catalog "orders" "Orders" "Order records" (Some "Finance")
       None None None None).

Definition themed_twice : DCATCatalog :=
  state_after themed_once
    (add_dataset themed_once "orders" "Orders" "Order records" (Some "Finance")
       None None None None).


(** *** Stores the operations build *)

(** A node of a namespace. *)
Definition in_namespace (ns : Namespace) (x : node) : bool :=
  match x with
  | URIRef u => String.prefix ns u
  | _ => false
  end.

(** Every node of the dataset namespace that the store says something
    about is typed as a dataset. *)
Definition datasets_registered (G : Graph) : Prop :=
  set_Forall (λ t, in_namespace DATASET_NS (subj t)
                   → (subj t, term RDF "type", term DCAT "Dataset") ∈ G) G.

Definition well_formed (self : DCATCatalog) : Prop :=
  anonymous_fields (g self) ∧ fresh_bnodes self ∧ datasets_registered (g self)
  ∧ in_namespace DATASET_NS (catalog self) = false.

(** * Properties

    ** Graph primitives *)

Section graph_lemmas.
Implicit Types (G : Graph) (t : triple) (s p o : node).

Lemma elem_of_add t t' G : t' ∈ add t G ↔ t' = t ∨ t' ∈ G.
Proof. unfold add. set_solver. Qed.

Lemma add_idemp t G : add t (add t G) = add t G.
Proof. unfold add. set_solver. Qed.

Lemma add_present t G : t ∈ G → add t G = G.
Proof. unfold add. set_solver. Qed.

Lemma match_pos_spec (q : option node) n :
  match_pos q n ↔ ∀ m, q = Some m → m = n.
Proof.
  destruct q as [m|]; simpl.
  - rewrite bool_decide_spec. naive_solver.
  - naive_solver.
Qed.

Lemma matches_spec (q : pattern) t :
  matches q t ↔
    (∀ m, q.1.1 = Some m → m = subj t) ∧ (∀ m, q.1.2 = Some m → m = pred t)
    ∧ (∀ m, q.2 = Some m → m = obj t).
Proof.
  unfold matches. rewrite !andb_True, !match_pos_spec. naive_solver.
Qed.

Lemma matches_subject s t : matches (Some s, None, None) t ↔ subj t = s.
Proof. rewrite matches_spec. simpl. naive_solver. Qed.

Lemma matches_subject_predicate s p t :
  matches (Some s, Some p, None) t ↔ subj t = s ∧ pred t = p.
Proof. rewrite matches_spec. simpl. naive_solver. Qed.

Lemma matches_triple s p o t : matches (Some s, Some p, Some o) t ↔ t = (s, p, o).
Proof.
  rewrite matches_spec. destruct t as [[s' p'] o']. unfold subj, pred, obj. simpl.
  naive_solver.
Qed.

Lemma matches_exactly t t' : matches (exactly t) t' ↔ t' = t.
Proof. destruct t as [[s p] o]. apply matches_triple. Qed.

Lemma elem_of_remove (q : pattern) t G : t ∈ remove q G ↔ t ∈ G ∧ ¬ matches q t.
Proof. unfold remove. rewrite elem_of_filter. naive_solver. Qed.

Lemma elem_of_triples (q : pattern) t G : t ∈ triples q G ↔ t ∈ G ∧ matches q t.
Proof. unfold triples. rewrite elem_of_elements, elem_of_filter. naive_solver. Qed.

Lemma elem_of_objects s p o G : o ∈ objects s p G ↔ (s, p, o) ∈ G.
Proof.
  unfold objects. rewrite list_elem_of_fmap. split.
  - intros ([[s' p'] o'] & -> & H). apply elem_of_triples in H as [H Hm].
    apply matches_subject_predicate in Hm as [Hs Hp].
    unfold subj, pred in *. simpl in *. by subst.
  - intros H. exists (s, p, o). split; [done|].
    apply elem_of_triples. split; [done|]. by apply matches_subject_predicate.
Qed.

Lemma elem_of_remove_all (ts : list triple) t G :
  t ∈ remove_all ts G ↔ t ∈ G ∧ t ∉ ts.
Proof.
  unfold remove_all. revert G. induction ts as [|t0 ts IH]; intros G; simpl.
  - rewrite elem_of_nil. naive_solver.
  - rewrite IH, elem_of_remove, matches_exactly, not_elem_of_cons. naive_solver.
Qed.

(** Removing the listed triples of a subject is removing the subject. *)
Lemma elem_of_remove_subject s t G :
  t ∈ remove_all (triples (Some s, None, None) G) G ↔ t ∈ G ∧ subj t ≠ s.
Proof.
  rewrite elem_of_remove_all, elem_of_triples, matches_subject. naive_solver.
Qed.

Lemma elem_of_remove_subjects (ss : list node) t G :
  t ∈ foldl (λ G s, remove_all (triples (Some s, None, None) G) G) G ss
  ↔ t ∈ G ∧ subj t ∉ ss.
Proof.
  revert G. induction ss as [|s ss IH]; intros G; simpl.
  - rewrite elem_of_nil. naive_solver.
  - rewrite IH, elem_of_remove_subject, not_elem_of_cons. naive_solver.
Qed.

Lemma elem_of_remove_objects s p (os : list node) t G :
  t ∈ foldl (λ G o, remove (Some s, Some p, Some o) G) G os
  ↔ t ∈ G ∧ ∀ o, o ∈ os → t ≠ (s, p, o).
Proof.
  revert G. induction os as [|o os IH]; intros G; simpl.
  - split; [intros H; split; [done|]; by intros ? ?%elem_of_nil | naive_solver].
  - rewrite IH, elem_of_remove, matches_triple. split.
    + intros [[H1 H2] H3]. split; [done|]. intros o' [->|Ho]%elem_of_cons; auto.
    + intros [H1 H2]. split; [split; [done|] |].
      * apply H2. left.
      * intros o' Ho. apply H2. by right.
Qed.
End graph_lemmas.

(** ** [delete_dataset]: what goes and what stays *)

Lemma elem_of_delete_dataset self identifier t :
  t ∈ g (delete_dataset self identifier) ↔
    t ∈ g self
    ∧ subj t ≠ term DATASET_NS identifier
    ∧ (term DATASET_NS identifier, term FIELD_NS "hasField", subj t) ∉ g self
    ∧ t ≠ (catalog self, term DCAT "dataset", term DATASET_NS identifier).
Proof.
  unfold delete_dataset, with_g. cbn [g].
  rewrite elem_of_remove, matches_triple.
  rewrite elem_of_remove_subject.
  rewrite elem_of_remove_objects.
  rewrite elem_of_remove, matches_subject_predicate.
  rewrite elem_of_remove_subjects, elem_of_objects.
  naive_solver.
Qed.

Lemma catalog_delete_dataset self identifier :
  catalog (delete_dataset self identifier) = catalog self.
Proof. reflexivity. Qed.

Lemma next_bnode_delete_dataset self identifier :
  next_bnode (delete_dataset self identifier) = next_bnode self.
Proof. reflexivity. Qed.

Lemma dataset_exists_spec self identifier :
  dataset_exists self identifier = true ↔
    (term DATASET_NS identifier, term RDF "type", term DCAT "Dataset") ∈ g self.
Proof. unfold dataset_exists. apply bool_decide_eq_true. Qed.

Lemma dataset_exists_delete_dataset self identifier :
  dataset_exists (delete_dataset self identifier) identifier = false.
Proof.
  apply not_true_is_false. rewrite dataset_exists_spec, elem_of_delete_dataset.
  unfold subj. simpl. naive_solver.
Qed.


(** ** The term query reads labels only *)

Ltac by_evaluation := apply (bool_decide_unpack _); vm_compute; exact I.

Section labels_lemmas.
Implicit Types (G L X : Graph).

Lemma elem_of_labels t G : t ∈ labels G ↔ t ∈ G ∧ pred t = term RDFS "label".
Proof. unfold labels. rewrite elem_of_filter. tauto. Qed.

Lemma label_rows_labels v G : label_rows v (labels G) = label_rows v G.
Proof.
  unfold label_rows, labels. f_equal. apply set_eq. intros t.
  rewrite !elem_of_filter. tauto.
Qed.

Lemma resolve_labels G1 G2 bt : labels G1 = labels G2 → resolve G1 bt = resolve G2 bt.
Proof.
  intros H. unfold resolve.
  by rewrite <- (label_rows_labels bt G1), <- (label_rows_labels bt G2), H.
Qed.

Lemma labels_union X G : labels (X ∪ G) = labels X ∪ labels G.
Proof.
  apply set_eq. intros t. rewrite elem_of_union, !elem_of_labels, elem_of_union. tauto.
Qed.

Lemma labels_empty : labels ∅ = ∅.
Proof. apply set_eq. intros t. rewrite elem_of_labels. set_solver. Qed.

Lemma labels_add t G : pred t ≠ term RDFS "label" → labels (add t G) = labels G.
Proof.
  intros H. apply set_eq. intros t'. rewrite !elem_of_labels, elem_of_add.
  split; [intros [[->|?] ?]; [done|tauto] | tauto].
Qed.

(** A set of triples none of which is a label. *)
Lemma labels_none X : (∀ t, t ∈ X → pred t ≠ term RDFS "label") → labels X = ∅.
Proof.
  intros H. apply set_eq. intros t. rewrite elem_of_labels. split; [|set_solver].
  intros [Ht Hp]. by destruct (H t Ht).
Qed.

Lemma labels_union_none X G :
  (∀ t, t ∈ X → pred t ≠ term RDFS "label") → labels (X ∪ G) = labels G.
Proof. intros H. by rewrite labels_union, (labels_none X H), (left_id_L ∅ (∪)). Qed.

Lemma elem_of_bt_edges L fn bts t :
  t ∈ bt_edges L fn bts ↔
    ∃ bt m0 rest, bt ∈ bts ∧ resolve L bt = m0 :: rest
      ∧ t = (fn, term FIELD_NS "hasBusinessTerm", term FIBO_NS m0).
Proof.
  unfold bt_edges. rewrite elem_of_union_list. split.
  - intros (X & HX & Ht). apply list_elem_of_fmap in HX as (bt & -> & Hbt).
    destruct (resolve L bt) as [|m0 rest] eqn:E; [by apply not_elem_of_empty in Ht|].
    apply elem_of_singleton in Ht. by exists bt, m0, rest.
  - intros (bt & m0 & rest & Hbt & E & ->).
    eexists. split; [apply list_elem_of_fmap; by exists bt|].
    rewrite E. by apply elem_of_singleton.
Qed.

Lemma elem_of_bt_classes L bts t :
  t ∈ bt_classes L bts ↔
    ∃ bt m0 rest, bt ∈ bts ∧ resolve L bt = m0 :: rest
      ∧ t = (term FIBO_NS m0, term RDF "type", term OWL "Class").
Proof.
  unfold bt_classes. rewrite elem_of_union_list. split.
  - intros (X & HX & Ht). apply list_elem_of_fmap in HX as (bt & -> & Hbt).
    destruct (resolve L bt) as [|m0 rest] eqn:E; [by apply not_elem_of_empty in Ht|].
    apply elem_of_singleton in Ht. by exists bt, m0, rest.
  - intros (bt & m0 & rest & Hbt & E & ->).
    eexists. split; [apply list_elem_of_fmap; by exists bt|].
    rewrite E. by apply elem_of_singleton.
Qed.

Lemma bt_edges_labels L1 L2 fn bts :
  labels L1 = labels L2 → bt_edges L1 fn bts = bt_edges L2 fn bts.
Proof.
  intros H. unfold bt_edges. f_equal. apply list_fmap_ext. intros _ bt _.
  by rewrite (resolve_labels L1 L2).
Qed.

Lemma bt_classes_labels L1 L2 bts :
  labels L1 = labels L2 → bt_classes L1 bts = bt_classes L2 bts.
Proof.
  intros H. unfold bt_classes. f_equal. apply list_fmap_ext. intros _ bt _.
  by rewrite (resolve_labels L1 L2).
Qed.

Lemma bt_links_labels L1 L2 fn bts :
  labels L1 = labels L2 → bt_links L1 fn bts = bt_links L2 fn bts.
Proof.
  intros H. unfold bt_links.
  by rewrite (bt_edges_labels L1 L2), (bt_classes_labels L1 L2).
Qed.

Lemma field_own_labels L1 L2 ds n f :
  labels L1 = labels L2 → field_own L1 ds n f = field_own L2 ds n f.
Proof. intros H. unfold field_own. by rewrite (bt_edges_labels L1 L2). Qed.

Lemma field_triples_labels L1 L2 ds n f :
  labels L1 = labels L2 → field_triples L1 ds n f = field_triples L2 ds n f.
Proof.
  intros H. unfold field_triples.
  by rewrite (field_own_labels L1 L2), (bt_classes_labels L1 L2).
Qed.

Lemma fields_own_labels L1 L2 ds n fs :
  labels L1 = labels L2 → fields_own L1 ds n fs = fields_own L2 ds n fs.
Proof.
  intros H. revert n. induction fs as [|f fs IH]; intros n; simpl; [done|].
  by rewrite IH, (field_own_labels L1 L2).
Qed.

Lemma fields_classes_labels L1 L2 fs :
  labels L1 = labels L2 → fields_classes L1 fs = fields_classes L2 fs.
Proof.
  intros H. induction fs as [|f fs IH]; simpl; [done|].
  by rewrite IH, (bt_classes_labels L1 L2).
Qed.

Lemma fields_triples_labels L1 L2 ds n fs :
  labels L1 = labels L2 → fields_triples L1 ds n fs = fields_triples L2 ds n fs.
Proof.
  intros H. unfold fields_triples.
  by rewrite (fields_own_labels L1 L2), (fields_classes_labels L1 L2).
Qed.

Lemma elem_of_field_own L ds n f t :
  t ∈ field_own L ds n f ↔
    t = (BNode n, term RDF "type", term FIELD_NS "Field")
    ∨ t = (BNode n, term FIELD_NS "fieldName", Lit (field_name f))
    ∨ t = (BNode n, term FIELD_NS "fieldType", Lit (field_type f))
    ∨ (∃ d, field_description f = Some d
            ∧ t = (BNode n, term FIELD_NS "fieldDescription", Lit d))
    ∨ t ∈ bt_edges L (BNode n) (items (field_business_terms f))
    ∨ t = (ds, term FIELD_NS "hasField", BNode n).
Proof.
  unfold field_own. rewrite !elem_of_union, !elem_of_singleton.
  destruct (field_description f) as [d|].
  - rewrite elem_of_singleton. split; [|intros [?|[?|[?|[(?&[= <-]&?)|[?|?]]]]]]; eauto 10.
    intros [[[[[?|?]|?]|?]|?]|?]; eauto 10.
  - rewrite elem_of_empty. split; [|intros [?|[?|[?|[(?&?&?)|[?|?]]]]]]; eauto 10.
    + intros [[[[[?|?]|?]|[]]|?]|?]; eauto 10.
    + done.
Qed.

Lemma elem_of_fields_own L ds n fs t :
  t ∈ fields_own L ds n fs ↔ ∃ i f, fs !! i = Some f ∧ t ∈ field_own L ds (n + i) f.
Proof.
  revert n. induction fs as [|f fs IH]; intros n; simpl.
  - rewrite elem_of_empty. split; [done|]. by intros (i & f & ? & _).
  - rewrite elem_of_union, IH. split.
    + intros [H|(i & f' & Hi & H)].
      * exists 0, f. by rewrite Nat.add_0_r.
      * exists (S i), f'. by rewrite Nat.add_succ_r.
    + intros ([|i] & f' & Hi & H); simpl in Hi.
      * left. injection Hi as <-. by rewrite Nat.add_0_r in H.
      * right. exists i, f'. by rewrite Nat.add_succ_r in H.
Qed.

Lemma elem_of_fields_classes L fs t :
  t ∈ fields_classes L fs ↔
    ∃ f, f ∈ fs ∧ t ∈ bt_classes L (items (field_business_terms f)).
Proof.
  induction fs as [|f fs IH]; simpl.
  - rewrite elem_of_empty. split; [done|]. by intros (f & ?%elem_of_nil & _).
  - rewrite elem_of_union, IH. split.
    + intros [H|(f' & Hf & H)]; [exists f; split; [left|done]
                                |exists f'; split; [by right|done]].
    + intros (f' & [->|Hf]%elem_of_cons & H); [by left|right; by exists f'].
Qed.

Lemma pred_bt_edges L fn bts t :
  t ∈ bt_edges L fn bts → pred t = term FIELD_NS "hasBusinessTerm" ∧ subj t = fn.
Proof. rewrite elem_of_bt_edges. by intros (bt & m0 & rest & _ & _ & ->). Qed.

Lemma pred_bt_classes L bts t :
  t ∈ bt_classes L bts → pred t = term RDF "type" ∧ ∃ m0, subj t = term FIBO_NS m0.
Proof.
  rewrite elem_of_bt_classes. intros (bt & m0 & rest & _ & _ & ->).
  split; [done|by exists m0].
Qed.

Lemma labels_bt_links L fn bts : labels (bt_links L fn bts) = ∅.
Proof.
  apply labels_none. intros t H. unfold bt_links in H.
  apply elem_of_union in H as [H|H].
  - apply pred_bt_edges in H as [-> _]. discriminate.
  - apply pred_bt_classes in H as [-> _]. discriminate.
Qed.
End labels_lemmas.

(** ** [add_dataset]: the store it leaves *)

Section closed_forms.
Implicit Types (G L X : Graph) (self : DCATCatalog).

Lemma link_business_term_closed self fn bt :
  plain bt →
  link_business_term self fn bt
  = Some (with_g self (bt_links (g self) fn [bt] ∪ g self)).
Proof.
  intros Hp. unfold link_business_term, is_business_term_in_fibo, bt_links,
    bt_edges, bt_classes.
  destruct (plain bt); [|done]. simpl. fold (resolve (g self) bt).
  destruct (resolve (g self) bt) as [|m0 rest]; simpl; f_equal.
  - destruct self. unfold with_g. simpl. f_equal. set_solver.
  - unfold with_g, add. simpl. f_equal. set_solver.
Qed.

Lemma bt_links_cons L fn bt bts :
  bt_links L fn (bt :: bts) = bt_links L fn [bt] ∪ bt_links L fn bts.
Proof. unfold bt_links, bt_edges, bt_classes. simpl. set_solver. Qed.

Lemma link_business_terms_closed self fn bts :
  forallb plain bts →
  link_business_terms self fn bts
  = Some (with_g self (bt_links (g self) fn bts ∪ g self)).
Proof.
  revert self. induction bts as [|bt bts IH]; intros self Hp.
  - simpl. destruct self. unfold with_g, bt_links, bt_edges, bt_classes. simpl.
    do 2 f_equal. set_solver.
  - simpl in Hp. apply andb_True in Hp as [Hbt Hbts].
    cbn [link_business_terms]. rewrite link_business_term_closed by done.
    cbn [mbind option_bind]. rewrite IH by done. unfold with_g. cbn [g catalog_uri next_bnode].
    do 2 f_equal. rewrite (bt_links_labels _ (g self)).
    + rewrite (bt_links_cons _ _ bt bts). set_solver.
    + by rewrite labels_union, labels_bt_links, (left_id_L ∅ (∪)).
Qed.

Lemma add_field_closed self ds f :
  plain_field f →
  add_field self ds f
  = Some (mkCatalog (field_triples (g self) ds (next_bnode self) f ∪ g self)
                    (catalog_uri self) (S (next_bnode self))).
Proof.
  intros Hp. unfold add_field, plain_field in *. cbn [g catalog_uri next_bnode].
  set (G0 := match field_description f with
             | Some d => add _ _
             | None => _
             end).
  assert (HG0 : labels G0 = labels (g self)).
  { subst G0. destruct (field_description f); rewrite ?labels_add; done. }
  set (self0 := with_g _ G0).
  assert (E : match field_business_terms f with
              | Some bts => link_business_terms self0 (BNode (next_bnode self)) bts
              | None => Some self0
              end
              = Some (mkCatalog (bt_links (g self) (BNode (next_bnode self))
                                   (items (field_business_terms f)) ∪ G0)
                        (catalog_uri self) (S (next_bnode self)))).
  { destruct (field_business_terms f) as [bts|]; cbn [items default] in *.
    - rewrite link_business_terms_closed by done. subst self0. unfold with_g.
      cbn [g catalog_uri next_bnode]. by rewrite (bt_links_labels _ _ _ _ HG0).
    - subst self0. unfold with_g, bt_links, bt_edges, bt_classes. simpl.
      do 2 f_equal. set_solver. }
  rewrite E. cbn [mbind option_bind]. unfold with_g. cbn [g catalog_uri next_bnode].
  do 2 f_equal. subst G0. clear. unfold field_triples, field_own, bt_links, add.
  destruct (field_description f); set_solver.
Qed.

Lemma pred_field_triples L ds n f t :
  t ∈ field_triples L ds n f → pred t ≠ term RDFS "label".
Proof.
  unfold field_triples. rewrite elem_of_union, elem_of_field_own.
  intros [[->|[->|[->|[(d & _ & ->)|[H| ->]]]]]|H]; try discriminate.
  - apply pred_bt_edges in H as [-> _]. discriminate.
  - apply pred_bt_classes in H as [-> _]. discriminate.
Qed.

Lemma fields_triples_cons L ds n f fs :
  fields_triples L ds n (f :: fs)
  = field_triples L ds n f ∪ fields_triples L ds (S n) fs.
Proof. unfold fields_triples, field_triples. simpl. set_solver. Qed.

Lemma add_fields_closed self ds fs :
  forallb plain_field fs →
  add_fields self ds fs
  = Some (mkCatalog (fields_triples (g self) ds (next_bnode self) fs ∪ g self)
                    (catalog_uri self) (next_bnode self + length fs)).
Proof.
  revert self. induction fs as [|f fs IH]; intros self Hp.
  - simpl. destruct self. simpl. rewrite Nat.add_0_r. do 2 f_equal.
    unfold fields_triples. simpl. set_solver.
  - simpl in Hp. apply andb_True in Hp as [Hf Hfs].
    cbn [add_fields]. rewrite add_field_closed by done.
    cbn [mbind option_bind]. rewrite IH by done. cbn [g catalog_uri next_bnode length].
    do 2 f_equal; [|lia].
    rewrite (fields_triples_labels _ (g self)).
    + rewrite fields_triples_cons. set_solver.
    + apply labels_union_none. intros t. apply pred_field_triples.
Qed.

Lemma foldl_add {A} (f : A → triple) (l : list A) G :
  foldl (λ G x, add (f x) G) G l = list_to_set (f <$> l) ∪ G.
Proof.
  revert G. induction l as [|x l IH]; intros G; simpl.
  - set_solver.
  - rewrite IH. unfold add. set_solver.
Qed.

Lemma foldl_add2 {A} (f1 f2 : A → triple) (l : list A) G :
  foldl (λ G x, add (f2 x) (add (f1 x) G)) G l
  = list_to_set (f1 <$> l) ∪ list_to_set (f2 <$> l) ∪ G.
Proof.
  revert G. induction l as [|x l IH]; intros G; simpl.
  - set_solver.
  - rewrite IH. unfold add. set_solver.
Qed.
End closed_forms.

Section payload_lemmas.
Variables (identifier title description : string).
Variables (theme : option string) (keywords : option (list string)).
Variables (issued : option string) (business_terms : option (list string)).
Variable fields : option (list field).

Let dataset : node := term DATASET_NS identifier.
Let written' := written identifier title description theme keywords issued
                  business_terms fields.

Lemma catalog_cleared self : catalog_uri (cleared identifier self) = catalog_uri self.
Proof. unfold cleared. by destruct (dataset_exists self identifier). Qed.

Lemma next_bnode_cleared self : next_bnode (cleared identifier self) = next_bnode self.
Proof. unfold cleared. by destruct (dataset_exists self identifier). Qed.

Lemma elem_of_dataset_triples t :
  t ∈ dataset_triples identifier title description keywords issued business_terms ↔
    t = (dataset, term RDF "type", term DCAT "Dataset")
    ∨ t = (dataset, term DCTERMS "title", Lit title)
    ∨ t = (dataset, term DCTERMS "description", Lit description)
    ∨ (∃ k, k ∈ items keywords ∧ t = (dataset, term DCAT "keyword", Lit k))
    ∨ (∃ d, truthy issued = Some d
            ∧ t = (dataset, term DCTERMS "issued", Literal d (Some (XSD +:+ "date")) None))
    ∨ (∃ x, x ∈ items business_terms ∧ t = (dataset, term RDFS "seeAlso", term FIBO_NS x)).
Proof.
  unfold dataset_triples, keyword_triples, issued_triples, seeAlso_triples.
  rewrite !elem_of_union, !elem_of_singleton, !elem_of_list_to_set, !list_elem_of_fmap.
  fold dataset. destruct (truthy issued) as [d|].
  - rewrite elem_of_singleton. split.
    + intros [[[[[?|?]|?]|(k&?&?)]|?]|(x&?&?)]; eauto 10.
    + intros [?|[?|[?|[(k&?&?)|[(?&[= <-]&?)|(x&?&?)]]]]]; eauto 10.
  - rewrite elem_of_empty. split.
    + intros [[[[[?|?]|?]|(k&?&?)]|[]]|(x&?&?)]; eauto 10.
    + intros [?|[?|[?|[(k&?&?)|[(?&?&?)|(x&?&?)]]]]]; eauto 10. done.
Qed.

Lemma subj_dataset_triples t :
  t ∈ dataset_triples identifier title description keywords issued business_terms →
  subj t = dataset ∧ pred t ≠ term RDFS "label"
  ∧ pred t ≠ term FIELD_NS "hasField" ∧ is_BNode (obj t) = false.
Proof.
  rewrite elem_of_dataset_triples.
  intros [->|[->|[->|[(k & _ & ->)|[(d & _ & ->)|(x & _ & ->)]]]]];
    repeat split; done.
Qed.

Lemma elem_of_theme_edge n t :
  t ∈ theme_edge identifier theme n ↔
    theme_nodes theme = 1 ∧ t = (dataset, term DCAT "theme", BNode n).
Proof.
  unfold theme_edge, theme_nodes. destruct (truthy theme).
  - rewrite elem_of_singleton. naive_solver.
  - rewrite elem_of_empty. naive_solver.
Qed.

Lemma elem_of_theme_node_triples n t :
  t ∈ theme_node_triples theme n ↔
    ∃ th, truthy theme = Some th
      ∧ (t = (BNode n, term RDF "type", term SKOS "Concept")
         ∨ t = (BNode n, term SKOS "prefLabel", Lit th)).
Proof.
  unfold theme_node_triples. destruct (truthy theme) as [th|].
  - rewrite elem_of_union, !elem_of_singleton. split; [eauto|].
    by intros (? & [= <-] & ?).
  - rewrite elem_of_empty. split; [done|]. by intros (? & ? & _).
Qed.

Lemma pred_written L cat n t : t ∈ written' L cat n → pred t ≠ term RDFS "label".
Proof.
  unfold written', written, own_triples, other_triples, class_triples.
  rewrite !elem_of_union, elem_of_singleton, elem_of_theme_edge,
    elem_of_theme_node_triples, elem_of_fields_own, elem_of_fields_classes,
    elem_of_list_to_set, list_elem_of_fmap.
  intros [[[H|[_ ->]]|(i & f & _ & H)]
         |[[[(th & _ & [->| ->])|(x & -> & _)]|(f & _ & H)]| ->]]; try discriminate.
  - by apply subj_dataset_triples in H as (_ & H & _).
  - apply (pred_field_triples L dataset (n + theme_nodes theme + i) f).
    unfold field_triples. apply elem_of_union. by left.
  - apply pred_bt_classes in H as [-> _]. discriminate.
Qed.

Lemma add_dataset_closed self :
  plain_fields fields →
  add_dataset self identifier title description theme keywords issued
    business_terms fields
  = Some (true,
          mkCatalog (written' (g (cleared identifier self)) (catalog self)
                       (next_bnode self)
                     ∪ g (cleared identifier self))
                    (catalog_uri self)
                    (next_bnode self + theme_nodes theme + length (items fields))).
Proof.
  intros Hp. unfold add_dataset. fold (cleared identifier self). fold dataset.
  assert (Hcat : catalog (cleared identifier self) = catalog self)
    by (unfold catalog; by rewrite catalog_cleared).
  rewrite catalog_cleared, next_bnode_cleared. set (B := g (cleared identifier self)).
  set (G3 := add _ (add _ (add _ B))).
  set (th := match truthy theme with | Some _ => _ | None => _ end).
  assert (Hth : th = (theme_node_triples theme (next_bnode self)
                      ∪ theme_edge identifier theme (next_bnode self) ∪ G3,
                      next_bnode self + theme_nodes theme)).
  { subst th. unfold theme_node_triples, theme_edge, theme_nodes, add. fold dataset.
    destruct (truthy theme); f_equal; try lia; set_solver. }
  rewrite Hth. clear Hth th.
  rewrite (foldl_add (λ keyword, (dataset, term DCAT "keyword", Lit keyword))).
  set (G5 := match truthy issued with | Some _ => _ | None => _ end).
  rewrite (foldl_add2 (λ t, (dataset, term RDFS "seeAlso", term FIBO_NS t))
             (λ t, (term FIBO_NS t, term RDF "type", term OWL "Class"))).
  set (G6 := _ ∪ _ ∪ G5).
  set (W0 := dataset_triples identifier title description keywords issued business_terms
             ∪ theme_edge identifier theme (next_bnode self)
             ∪ theme_node_triples theme (next_bnode self) ∪ class_triples business_terms).
  assert (HG6 : G6 = W0 ∪ B).
  { subst G6 G5 G3 W0. unfold dataset_triples, keyword_triples, issued_triples,
      seeAlso_triples, class_triples, add. fold dataset.
    destruct (truthy issued); set_solver. }
  rewrite add_fields_closed by done. cbn [mbind option_bind].
  do 2 f_equal. unfold with_g. cbn [g catalog_uri next_bnode]. rewrite HG6.
  f_equal. rewrite (fields_triples_labels _ B).
  - fold dataset. unfold written', written, own_triples, other_triples, fields_triples,
      catalog, add. subst W0. fold dataset. clear. set_solver.
  - apply labels_union_none. subst W0. intros t Ht.
    apply (pred_written B (catalog self) (next_bnode self)).
    unfold written', written, own_triples, other_triples. clear -Ht. set_solver.
Qed.
End payload_lemmas.

(** ** Identifiers of the different namespaces never meet *)

Lemma append_inj_r (p a b : string) : p +:+ a = p +:+ b → a = b.
Proof. induction p as [|c p IH]; simpl; [done|]. intros [= H]. auto. Qed.

Lemma term_inj ns a b : term ns a = term ns b → a = b.
Proof. unfold term. intros [= H]. by apply append_inj_r in H. Qed.

Lemma fibo_ne_dataset x identifier : term FIBO_NS x ≠ term DATASET_NS identifier.
Proof. unfold term, FIBO_NS, DATASET_NS. simpl. intros [= H]. Qed.

(** ** The term resolver, [is_business_term_in_fibo] *)

Lemma elem_of_label_rows v G t :
  t ∈ label_rows v G ↔ t ∈ G ∧ pred t = term RDFS "label" ∧ str (obj t) = Some v.
Proof. unfold label_rows. rewrite elem_of_elements, elem_of_filter. tauto. Qed.

Lemma elem_of_resolve G v u :
  u ∈ resolve G v ↔
    ∃ n lbl, (n, term RDFS "label", lbl) ∈ G ∧ str lbl = Some v ∧ format_node n = u.
Proof.
  unfold resolve. rewrite list_elem_of_fmap. split.
  - intros ([[n p] lbl] & -> & H). apply elem_of_label_rows in H as (H & Hp & Hs).
    unfold pred, obj, subj in *. cbn [fst snd] in *. subst p. by exists n, lbl.
  - intros (n & lbl & H & Hs & <-). exists (n, term RDFS "label", lbl).
    split; [done|]. by apply elem_of_label_rows.
Qed.

Lemma is_business_term_in_fibo_plain self v :
  plain v → is_business_term_in_fibo self v = Some (resolve (g self) v).
Proof. intros H. unfold is_business_term_in_fibo. by destruct (plain v). Qed.


(** What the call returns: for a term that the query text reads back as it
    is, the identifiers of the subjects of the [rdfs:label] triples whose
    object has exactly the given string as its text, one for each such
    triple, whatever the subject is; none gives the empty list, and a single
    one gives a single identifier. *)
Lemma is_business_term_in_fibo_exact_label (self : DCATCatalog) (v : string) :
  plain v →
  ∃ ids, is_business_term_in_fibo self v = Some ids
    ∧ (∀ u, u ∈ ids ↔
         ∃ n lbl, (n, term RDFS "label", lbl) ∈ g self ∧ str lbl = Some v
                  ∧ format_node n = u)
    ∧ length ids
      = size (filter (λ t, pred t = term RDFS "label" ∧ str (obj t) = Some v) (g self))
    ∧ ((∀ n lbl, (n, term RDFS "label", lbl) ∈ g self → str lbl ≠ Some v) → ids = [])
    ∧ (∀ n lbl, (∀ t, t ∈ g self ∧ pred t = term RDFS "label" ∧ str (obj t) = Some v
                      ↔ t = (n, term RDFS "label", lbl))
                → ids = [format_node n]).
Proof.
  intros Hv. exists (resolve (g self) v).
  split; [by apply is_business_term_in_fibo_plain|].
  split; [intros u; apply elem_of_resolve|].
  split; [unfold resolve, label_rows; by rewrite length_fmap|].
  split.
  - intros Hno. destruct (resolve (g self) v) as [|u us] eqn:E; [done|].
    assert (Hu : u ∈ resolve (g self) v) by (rewrite E; left).
    apply elem_of_resolve in Hu as (n & lbl & H & Hs & _). by destruct (Hno n lbl).
  - intros n lbl Hone. unfold resolve, label_rows.
    assert (E : filter (λ t, pred t = term RDFS "label" ∧ str (obj t) = Some v) (g self)
                = {[ (n, term RDFS "label", lbl) ]}).
    { apply set_eq. intros t. rewrite elem_of_filter, elem_of_singleton, <- Hone. tauto. }
    rewrite E, elements_singleton. reflexivity.
Qed.

(** The three calls of the scenario: one identifier for the exact label,
    none for another case, none and no error for a label that is absent. *)
Example is_business_term_in_fibo_legal_entity :
  is_business_term_in_fibo legal_entity_catalog "Legal Entity" = Some [T1]
  ∧ is_business_term_in_fibo legal_entity_catalog "legal entity" = Some []
  ∧ is_business_term_in_fibo legal_entity_catalog "Illegal Entity" = Some [].
Proof. repeat split; vm_compute; reflexivity. Qed.

(** ** [serialize_catalog] *)

(** C9: whatever is passed as [format] and [indent], the result is the
    parsed JSON-LD serialization (indent 2) of the whole graph, the same as
    with the default arguments. *)
Theorem serialize_catalog_ignores_arguments {document : Type}
    (Graph_serialize : Graph → string → Z → string) (json_loads : string → document)
    (self : DCATCatalog) (format : string) (indent : Z) :
  serialize_catalog Graph_serialize json_loads self format indent
  = json_loads (Graph_serialize (g self) "json-ld" 2%Z)
  ∧ serialize_catalog Graph_serialize json_loads self format indent
    = serialize_catalog Graph_serialize json_loads self "json-ld" 2%Z.
Proof. split; reflexivity. Qed.

(** ** Dataset-level business terms *)

(** C8: every entry of [business_terms] gets its [seeAlso] edge to the
    identifier made of the ontology namespace and the raw string, and that
    node is typed [owl:Class]; nothing is asked of the store or of the entry,
    so it holds for terms without any label in the store, and for terms the
    term query could not even be asked about. *)
Theorem add_dataset_links_dataset_terms (self : DCATCatalog)
    (identifier title description : string) (theme : option string)
    (keywords : option (list string)) (issued : option string)
    (business_terms : option (list string)) (fields : option (list field)) :
  plain_fields fields →
  ∃ self', add_dataset self identifier title description theme keywords issued
             business_terms fields = Some (true, self')
    ∧ ∀ t, t ∈ items business_terms →
        (term DATASET_NS identifier, term RDFS "seeAlso", term FIBO_NS t) ∈ g self'
        ∧ (term FIBO_NS t, term RDF "type", term OWL "Class") ∈ g self'.
Proof.
  intros Hp. eexists. split; [by apply add_dataset_closed|].
  intros t Ht. cbn [g]. unfold written, own_triples, other_triples.
  split.
  - assert ((term DATASET_NS identifier, term RDFS "seeAlso", term FIBO_NS t)
            ∈ dataset_triples identifier title description keywords issued business_terms).
    { apply elem_of_dataset_triples. do 5 right. by exists t. }
    set_solver.
  - assert ((term FIBO_NS t, term RDF "type", term OWL "Class")
            ∈ class_triples business_terms).
    { apply elem_of_list_to_set, list_elem_of_fmap. by exists t. }
    set_solver.
Qed.

Lemma add_dataset_links_dataset_terms_witness :
  ∃ self', add_dataset empty_catalog "orders" "Orders" "Order records" None None None
             (Some ["No Such Term"]) None = Some (true, self')
    ∧ ∀ t, t ∈ ["No Such Term"] →
        (term DATASET_NS "orders", term RDFS "seeAlso", term FIBO_NS t) ∈ g self'
        ∧ (term FIBO_NS t, term RDF "type", term OWL "Class") ∈ g self'.
Proof.
  apply (add_dataset_links_dataset_terms empty_catalog "orders" "Orders" "Order records"
           None None None (Some ["No Such Term"]) None).
  reflexivity.
Defined.

(** ** Keywords and foreign keys in a store that is a set *)

Lemma state_after_add_dataset self identifier title description theme keywords issued
    business_terms fields :
  plain_fields fields →
  add_dataset self identifier title description theme keywords issued business_terms fields
  = Some (true, state_after self
                  (add_dataset self identifier title description theme keywords issued
                     business_terms fields)).
Proof. intros Hp. by rewrite add_dataset_closed. Qed.

Lemma triples_exactly t G : t ∈ G → triples (exactly t) G = [t].
Proof.
  intros Ht. unfold triples.
  assert (E : filter (λ t', matches (exactly t) t') G = {[ t ]}).
  { apply set_eq. intros t'. rewrite elem_of_filter, matches_exactly, elem_of_singleton.
    split; [tauto|]. by intros ->. }
  by rewrite E, elements_singleton.
Qed.

Lemma add_foreign_key_relationship_exists self from_dataset to_dataset description :
  dataset_exists self from_dataset = true → dataset_exists self to_dataset = true →
  add_foreign_key_relationship self from_dataset to_dataset description
  = (inl true,
     with_g self
       (match truthy description with
        | Some d => add (term DATASET_NS from_dataset, term RDFS "comment", Lit d)
        | None => id
        end (add (foreign_key from_dataset to_dataset) (g self)))).
Proof.
  intros H1 H2. unfold add_foreign_key_relationship. rewrite H1, H2.
  cbn [negb orb]. unfold foreign_key. by destruct (truthy description).
Qed.

Lemma add_foreign_key_relationship_missing self from_dataset to_dataset description :
  dataset_exists self from_dataset = false ∨ dataset_exists self to_dataset = false →
  add_foreign_key_relationship self from_dataset to_dataset description
  = (inr (ValueError "One or both datasets do not exist."), self).
Proof.
  intros H. unfold add_foreign_key_relationship.
  destruct H as [-> | ->]; [reflexivity|]. by rewrite orb_true_r.
Qed.

Example two_datasets_registered :
  add_dataset empty_catalog "a" "A" "first" None None None None None
  = Some (true, one_dataset)
  ∧ add_dataset one_dataset "b" "B" "second" None None None None None
    = Some (true, two_datasets)
  ∧ dataset_exists two_datasets "a" = true ∧ dataset_exists two_datasets "b" = true.
Proof.
  split; [by apply state_after_add_dataset|].
  split; [by apply state_after_add_dataset|].
  split; vm_compute; reflexivity.
Qed.

Lemma linked_datasets_closed :
  add_foreign_key_relationship two_datasets "a" "b" None = (inl true, linked_datasets)
  ∧ g linked_datasets = add (foreign_key "a" "b") (g two_datasets).
Proof.
  destruct two_datasets_registered as (_ & _ & Ha & Hb).
  unfold linked_datasets.
  rewrite (add_foreign_key_relationship_exists two_datasets "a" "b" None Ha Hb).
  split; reflexivity.
Qed.

(** C3, as stated, fails: the keyword [a] given twice is stored as one
    triple, and the foreign key added twice is one edge. *)
Lemma keywords_and_foreign_keys_not_duplicated :
  (∃ self', add_dataset empty_catalog "orders" "Orders" "Order records" None
              (Some ["a"; "a"]) None None None = Some (true, self')
     ∧ length (triples (Some (term DATASET_NS "orders"), Some (term DCAT "keyword"), None)
                 (g self')) = 1)
  ∧ (∃ s1 s2, add_foreign_key_relationship two_datasets "a" "b" None = (inl true, s1)
       ∧ add_foreign_key_relationship s1 "a" "b" None = (inl true, s2)
       ∧ length (triples (exactly (foreign_key "a" "b")) (g s2)) = 1).
Proof.
  split.
  - eexists. split; [by apply add_dataset_closed|]. vm_compute. reflexivity.
  - destruct two_datasets_registered as (_ & _ & Ha & Hb).
    destruct linked_datasets_closed as [E1 E2].
    assert (Hsub : ∀ t, t ∈ g two_datasets → t ∈ g linked_datasets).
    { intros t Ht. rewrite E2. apply elem_of_add. by right. }
    apply dataset_exists_spec in Ha, Hb. apply Hsub, dataset_exists_spec in Ha, Hb.
    exists linked_datasets. eexists. split; [exact E1|]. split.
    + exact (add_foreign_key_relationship_exists linked_datasets "a" "b" None Ha Hb).
    + cbn [with_g g truthy id]. rewrite triples_exactly; [reflexivity|].
      apply elem_of_add. left. reflexivity.
Qed.

Lemma remove_dups_fmap_inj {A B} `{EqDecision A, EqDecision B} (f : A → B)
    `{!Inj (=) (=) f} (l : list A) :
  remove_dups (f <$> l) = f <$> remove_dups l.
Proof.
  induction l as [|x l IH]; [done|].
  rewrite fmap_cons. cbn [remove_dups]. repeat case_decide.
  - done.
  - exfalso. by apply (list_elem_of_fmap_inj_2 f l x) in H.
  - exfalso. by apply (list_elem_of_fmap_2 f) in H0.
  - by rewrite fmap_cons, IH.
Qed.

Lemma size_list_to_set_remove_dups (l : list triple) :
  size (list_to_set l : Graph) = length (remove_dups l).
Proof.
  rewrite <- (size_list_to_set (C := Graph) (remove_dups l)) by apply NoDup_remove_dups.
  f_equal. apply set_eq. intros t. by rewrite !elem_of_list_to_set, elem_of_remove_dups.
Qed.

#[global] Instance keyword_triple_inj identifier : Inj (=) (=) (keyword_triple identifier).
Proof. intros k1 k2 H. unfold keyword_triple, Lit in H. congruence. Qed.

Lemma foreign_key_at_most_once (G : Graph) (t0 : triple) :
  (size (filter (λ t, t = t0) G) ≤ 1)%nat.
Proof.
  rewrite <- (size_singleton (C := Graph) t0). apply subseteq_size.
  intros t Ht. apply elem_of_filter in Ht as [-> _]. by apply elem_of_singleton.
Qed.

(** C3, amended: in every store, each keyword of the sequence is stored, as
    one triple however often it occurs, so the keyword triples stored for the
    sequence are as many as its distinct keywords; and in every store the
    second of two equal calls of [add_foreign_key_relationship] returns what
    the first returned and changes nothing: on existing datasets both return
    [True], and the edge is there once. *)
Theorem keywords_and_foreign_keys_stored_once (self : DCATCatalog)
    (identifier title description : string) (theme : option string)
    (keywords : option (list string)) (issued : option string)
    (business_terms : option (list string)) (fields : option (list field))
    (from_dataset to_dataset : string) (comment : option string) :
  plain_fields fields →
  (∃ self', add_dataset self identifier title description theme keywords issued
              business_terms fields = Some (true, self')
     ∧ (∀ k, k ∈ items keywords → keyword_triple identifier k ∈ g self')
     ∧ size (filter (λ t, t ∈ keyword_triple identifier <$> items keywords) (g self'))
       = length (remove_dups (items keywords)))
  ∧ (∃ r1 s1, add_foreign_key_relationship self from_dataset to_dataset comment
              = (r1, s1)
       ∧ add_foreign_key_relationship s1 from_dataset to_dataset comment = (r1, s1)
       ∧ (size (filter (λ t, t = foreign_key from_dataset to_dataset) (g s1)) ≤ 1)%nat
       ∧ (dataset_exists self from_dataset = true →
          dataset_exists self to_dataset = true →
          r1 = inl true
          ∧ size (filter (λ t, t = foreign_key from_dataset to_dataset) (g s1)) = 1)).
Proof.
  intros Hp. split; [|destruct (dataset_exists self from_dataset) eqn:Hfrom;
                       [destruct (dataset_exists self to_dataset) eqn:Hto|]].
  - eexists. split; [by apply add_dataset_closed|]. cbn [g].
    set (G' := _ ∪ _).
    assert (Hin : ∀ k, k ∈ items keywords → keyword_triple identifier k ∈ G').
    { intros k Hk. subst G'. apply elem_of_union. left.
      unfold written, own_triples. rewrite !elem_of_union. do 3 left.
      apply elem_of_dataset_triples. do 3 right. left. by exists k. }
    split; [done|].
    rewrite <- (length_fmap (keyword_triple identifier)),
      <- (remove_dups_fmap_inj (keyword_triple identifier)),
      <- size_list_to_set_remove_dups.
    f_equal. apply set_eq. intros t.
    rewrite elem_of_filter, elem_of_list_to_set. split; [tauto|].
    intros Ht. split; [done|].
    apply list_elem_of_fmap in Ht as (k & -> & Hk). by apply Hin.
  - rewrite add_foreign_key_relationship_exists by done. eexists _, _. split; [done|].
    set (s1 := with_g _ _).
    assert (Hs1 : ∀ t, t ∈ g self → t ∈ g s1).
    { intros t Ht. subst s1. cbn [g with_g].
      destruct (truthy comment); cbn [id]; rewrite !elem_of_add; auto. }
    assert (Hfk : foreign_key from_dataset to_dataset ∈ g s1).
    { subst s1. cbn [g with_g].
      destruct (truthy comment); cbn [id]; rewrite !elem_of_add; auto. }
    split.
    + assert (Hfrom' : dataset_exists s1 from_dataset = true)
        by (apply dataset_exists_spec, Hs1, dataset_exists_spec, Hfrom).
      assert (Hto' : dataset_exists s1 to_dataset = true)
        by (apply dataset_exists_spec, Hs1, dataset_exists_spec, Hto).
      rewrite (add_foreign_key_relationship_exists s1 _ _ comment Hfrom' Hto').
      f_equal. subst s1. unfold with_g. cbn [g catalog_uri next_bnode]. f_equal.
      apply set_eq. intros t.
      destruct (truthy comment); cbn [id]; rewrite !elem_of_add; tauto.
    + assert (E : size (filter (λ t, t = foreign_key from_dataset to_dataset) (g s1)) = 1).
      { rewrite <- (size_singleton (C := Graph) (foreign_key from_dataset to_dataset)).
        f_equal. apply set_eq. intros t. rewrite elem_of_filter, elem_of_singleton.
        split; [tauto|]. by intros ->. }
      split; [rewrite E; lia|]. intros _ _. by split.
  - rewrite (add_foreign_key_relationship_missing self from_dataset to_dataset comment)
      by (by right).
    eexists _, _. split; [done|]. split; [|split; [|done]].
    + by apply add_foreign_key_relationship_missing; right.
    + apply foreign_key_at_most_once.
  - rewrite (add_foreign_key_relationship_missing self from_dataset to_dataset comment)
      by (by left).
    eexists _, _. split; [done|]. split; [|split; [|done]].
    + by apply add_foreign_key_relationship_missing; left.
    + apply foreign_key_at_most_once.
Qed.

Lemma keywords_and_foreign_keys_stored_once_witness :
  (∃ self', add_dataset two_datasets "orders" "Orders" "Order records" None
              (Some ["a"; "a"]) None None None = Some (true, self')
     ∧ (∀ k, k ∈ ["a"; "a"] → keyword_triple "orders" k ∈ g self')
     ∧ size (filter (λ t, t ∈ keyword_triple "orders" <$> ["a"; "a"]) (g self'))
       = length (remove_dups ["a"; "a"]))
  ∧ (∃ r1 s1, add_foreign_key_relationship two_datasets "a" "b" None = (r1, s1)
       ∧ add_foreign_key_relationship s1 "a" "b" None = (r1, s1)
       ∧ (size (filter (λ t, t = foreign_key "a" "b") (g s1)) ≤ 1)%nat
       ∧ r1 = inl true
       ∧ size (filter (λ t, t = foreign_key "a" "b") (g s1)) = 1).
Proof.
  destruct (keywords_and_foreign_keys_stored_once two_datasets "orders" "Orders"
              "Order records" None (Some ["a"; "a"]) None None None "a" "b" None I)
    as [Hk (r1 & s1 & H1 & H2 & H3 & H4)].
  split; [exact Hk|]. exists r1, s1.
  split; [exact H1|]. split; [exact H2|]. split; [exact H3|].
  apply H4; vm_compute; reflexivity.
Defined.

(** ** [add_foreign_key_relationship] *)

Lemma linked_datasets_not_field : 
  (term DATASET_NS "b", term FIELD_NS "hasField", term DATASET_NS "a") ∉ g linked_datasets.
Proof. by_evaluation. Qed.

Lemma dangling_foreign_key :
  foreign_key "a" "b" ∈ g dangling_catalog ∧ dataset_exists dangling_catalog "b" = false.
Proof.
  split; [|apply dataset_exists_delete_dataset].
  destruct linked_datasets_closed as [_ E].
  apply elem_of_delete_dataset.
  split; [rewrite E; apply elem_of_add; left; reflexivity|].
  split; [intros H; apply term_inj in H; discriminate H|].
  split; [apply linked_datasets_not_field|].
  intros H. apply (f_equal pred) in H. discriminate H.
Qed.

(** C4, as stated, fails in its parenthesis: the call fails because [b] is
    gone and leaves the store as it is, and the store has the edge from [a]
    to [b] that was added while [b] existed. *)
Lemma add_foreign_key_relationship_error_keeps_old_edge :
  add_foreign_key_relationship two_datasets "a" "b" None = (inl true, linked_datasets)
  ∧ add_foreign_key_relationship dangling_catalog "a" "b" None
    = (inr (ValueError "One or both datasets do not exist."), dangling_catalog)
  ∧ foreign_key "a" "b" ∈ g dangling_catalog.
Proof.
  split; [apply linked_datasets_closed|]. split.
  - apply add_foreign_key_relationship_missing. right.
    apply dataset_exists_delete_dataset.
  - apply dangling_foreign_key.
Qed.

(** C4, amended: the call raises exactly when one of the two datasets does
    not exist, and then the store is the one it was (with the foreign-key
    edges it had); when both exist the result is [True] and the store gains
    the edge and, for a description that is not empty, the comment. *)
Theorem add_foreign_key_relationship_checks_both (self : DCATCatalog)
    (from_dataset to_dataset : string) (description : option string) :
  let r := add_foreign_key_relationship self from_dataset to_dataset description in
  ((∃ e, r.1 = inr e)
   ↔ dataset_exists self from_dataset = false ∨ dataset_exists self to_dataset = false)
  ∧ ((∃ e, r.1 = inr e) → r.2 = self)
  ∧ ((∀ e, r.1 ≠ inr e) →
       r.1 = inl true
       ∧ catalog r.2 = catalog self ∧ next_bnode r.2 = next_bnode self
       ∧ ∀ t, t ∈ g r.2 ↔
           t = foreign_key from_dataset to_dataset
           ∨ (∃ d, description = Some d ∧ d ≠ ""
                   ∧ t = (term DATASET_NS from_dataset, term RDFS "comment", Lit d))
           ∨ t ∈ g self).
Proof.
  cbv zeta.
  destruct (dataset_exists self from_dataset) eqn:Hfrom;
    [destruct (dataset_exists self to_dataset) eqn:Hto|].
  - rewrite add_foreign_key_relationship_exists by done. cbn [fst snd].
    split; [|split].
    + split; [intros [e He]; discriminate He|intros [H|H]; discriminate H].
    + intros [e He]. discriminate He.
    + intros _. split; [reflexivity|]. split; [reflexivity|]. split; [reflexivity|].
      intros t. cbn [with_g g]. destruct description as [d|]; cbn [truthy].
      * case_bool_decide as Hd; cbn [id]; rewrite ?elem_of_add.
        { split; [tauto|]. intros [?|[(d' & [= <-] & Hne & _)|?]]; [tauto|done|tauto]. }
        split.
        { intros [->|[->|?]]; [|tauto..]. right. left. by exists d. }
        intros [->|[(d' & [= <-] & _ & ->)|?]]; tauto.
      * cbn [id]. rewrite elem_of_add. split; [tauto|].
        intros [?|[(d' & Hd & _)|?]]; [tauto|discriminate Hd|tauto].
  - rewrite add_foreign_key_relationship_missing by (by right). cbn [fst snd].
    split; [|split].
    + split; [intros _; by right|intros _; by eexists].
    + done.
    + intros H. exfalso. by eapply H.
  - rewrite add_foreign_key_relationship_missing by (by left). cbn [fst snd].
    split; [|split].
    + split; [intros _; by left|intros _; by eexists].
    + done.
    + intros H. exfalso. by eapply H.
Qed.

(** ** [delete_dataset] and what it leaves *)

Lemma not_field_of_anonymous G s n :
  anonymous_fields G → is_BNode n = false → (s, term FIELD_NS "hasField", n) ∉ G.
Proof.
  intros Ha Hn Hin. specialize (Ha _ Hin eq_refl). unfold obj in Ha. cbn [snd] in Ha.
  rewrite Hn in Ha. exact Ha.
Qed.

Lemma delete_dataset_keeps_term self identifier x t :
  anonymous_fields (g self) → catalog self ≠ term FIBO_NS x →
  t ∈ g self → subj t = term FIBO_NS x → t ∈ g (delete_dataset self identifier).
Proof.
  intros Ha Hcat Ht Hs. apply elem_of_delete_dataset. split; [exact Ht|]. rewrite Hs.
  split; [apply fibo_ne_dataset|]. split.
  - apply not_field_of_anonymous; [exact Ha|reflexivity].
  - intros ->. apply Hcat. exact Hs.
Qed.

(** C5: after [delete_dataset] no triple has the dataset node or one of its
    field nodes as subject, so the reference edges to a business term are
    gone, and every triple about the business term node itself, its
    [owl:Class] typing included, is still in the store. *)
Theorem delete_dataset_keeps_business_terms (self : DCATCatalog)
    (identifier x : string) :
  anonymous_fields (g self) →
  catalog self ≠ term FIBO_NS x →
  let dataset := term DATASET_NS identifier in
  let self' := delete_dataset self identifier in
  (∀ t, t ∈ g self → subj t = dataset ∨ (dataset, term FIELD_NS "hasField", subj t) ∈ g self
        → t ∉ g self')
  ∧ (dataset, term RDFS "seeAlso", term FIBO_NS x) ∉ g self'
  ∧ (∀ f, (dataset, term FIELD_NS "hasField", f) ∈ g self
          → (f, term FIELD_NS "hasBusinessTerm", term FIBO_NS x) ∉ g self')
  ∧ (∀ t, t ∈ g self → subj t = term FIBO_NS x → t ∈ g self')
  ∧ (ontology_typed (g self) (term FIBO_NS x)
     → ontology_typed (g self') (term FIBO_NS x)).
Proof.
  intros Ha Hcat dataset self'.
  split; [|split; [|split; [|split]]].
  - intros t Ht Hs Hin. apply elem_of_delete_dataset in Hin as (_ & Hne & Hnf & _).
    destruct Hs as [Hs|Hs]; [exact (Hne Hs)|exact (Hnf Hs)].
  - intros Hin. apply elem_of_delete_dataset in Hin as (_ & Hne & _).
    apply Hne. reflexivity.
  - intros f Hf Hin. apply elem_of_delete_dataset in Hin as (_ & _ & Hnf & _).
    apply Hnf. exact Hf.
  - intros t. by apply delete_dataset_keeps_term.
  - intros Ht. by apply (delete_dataset_keeps_term self identifier x).
Qed.

Lemma orders_catalog_anonymous_fields : anonymous_fields (g orders_catalog).
Proof. by_evaluation. Qed.

Lemma orders_catalog_root : catalog orders_catalog ≠ term FIBO_NS "LegalEntity".
Proof. vm_compute. discriminate. Qed.

Lemma delete_dataset_keeps_business_terms_witness :
  let dataset := term DATASET_NS "orders" in
  let self' := delete_dataset orders_catalog "orders" in
  (∀ t, t ∈ g orders_catalog
        → subj t = dataset ∨ (dataset, term FIELD_NS "hasField", subj t) ∈ g orders_catalog
        → t ∉ g self')
  ∧ (dataset, term RDFS "seeAlso", term FIBO_NS "LegalEntity") ∉ g self'
  ∧ (∀ f, (dataset, term FIELD_NS "hasField", f) ∈ g orders_catalog
          → (f, term FIELD_NS "hasBusinessTerm", term FIBO_NS "LegalEntity") ∉ g self')
  ∧ (∀ t, t ∈ g orders_catalog → subj t = term FIBO_NS "LegalEntity" → t ∈ g self')
  ∧ (ontology_typed (g orders_catalog) (term FIBO_NS "LegalEntity")
     → ontology_typed (g self') (term FIBO_NS "LegalEntity")).
Proof.
  apply (delete_dataset_keeps_business_terms orders_catalog "orders" "LegalEntity").
  - by_evaluation.
  - vm_compute. discriminate.
Defined.

(** The typing of the term really is in the store before and after. *)
Example orders_business_term_survives :
  dataset_exists orders_catalog "orders" = true
  ∧ (term DATASET_NS "orders", term RDFS "seeAlso", term FIBO_NS "LegalEntity")
    ∈ g orders_catalog
  ∧ ontology_typed (g orders_catalog) (term FIBO_NS "LegalEntity")
  ∧ ontology_typed (g (delete_dataset orders_catalog "orders")) (term FIBO_NS "LegalEntity")
  ∧ dataset_exists (delete_dataset orders_catalog "orders") "orders" = false.
Proof.
  assert (H : ontology_typed (g orders_catalog) (term FIBO_NS "LegalEntity"))
    by (unfold ontology_typed; by_evaluation).
  split; [vm_compute; reflexivity|]. split; [by_evaluation|]. split; [exact H|].
  split; [|apply dataset_exists_delete_dataset].
  exact (delete_dataset_keeps_term orders_catalog "orders" "LegalEntity" _
           orders_catalog_anonymous_fields orders_catalog_root H eq_refl).
Qed.

(** C10: a triple that [delete_dataset] removes has the dataset node or one
    of its field nodes as subject, or is the catalog's edge to the dataset;
    a foreign-key edge from another dataset to the deleted one stays, and
    then points to a dataset that does not exist. *)
Theorem delete_dataset_leaves_incoming_foreign_keys (self : DCATCatalog)
    (identifier other : string) :
  anonymous_fields (g self) →
  let dataset := term DATASET_NS identifier in
  let self' := delete_dataset self identifier in
  (∀ t, t ∈ g self → t ∉ g self' →
        subj t = dataset ∨ (dataset, term FIELD_NS "hasField", subj t) ∈ g self
        ∨ t = (catalog self, term DCAT "dataset", dataset))
  ∧ (other ≠ identifier → foreign_key other identifier ∈ g self →
       foreign_key other identifier ∈ g self' ∧ dataset_exists self' identifier = false)
  ∧ (foreign_key "a" "b" ∈ g dangling_catalog ∧ dataset_exists dangling_catalog "b" = false).
Proof.
  intros Ha dataset self'. split; [|split].
  - intros t Ht Hout.
    destruct (decide (subj t = dataset)) as [|H1]; [by left|].
    destruct (decide ((dataset, term FIELD_NS "hasField", subj t) ∈ g self)) as [|H2];
      [by right; left|].
    destruct (decide (t = (catalog self, term DCAT "dataset", dataset))) as [|H3];
      [by right; right|].
    destruct Hout. by apply elem_of_delete_dataset.
  - intros Hne Hin. split; [|apply dataset_exists_delete_dataset].
    apply elem_of_delete_dataset. split; [exact Hin|].
    split; [intros H; by apply term_inj in H|]. split.
    + apply not_field_of_anonymous; [exact Ha|reflexivity].
    + intros H. apply (f_equal pred) in H. discriminate H.
  - exact dangling_foreign_key.
Qed.

Lemma delete_dataset_leaves_incoming_foreign_keys_witness :
  let dataset := term DATASET_NS "b" in
  let self' := delete_dataset linked_datasets "b" in
  (∀ t, t ∈ g linked_datasets → t ∉ g self' →
        subj t = dataset ∨ (dataset, term FIELD_NS "hasField", subj t) ∈ g linked_datasets
        ∨ t = (catalog linked_datasets, term DCAT "dataset", dataset))
  ∧ ("a" ≠ "b" → foreign_key "a" "b" ∈ g linked_datasets →
       foreign_key "a" "b" ∈ g self' ∧ dataset_exists self' "b" = false)
  ∧ (foreign_key "a" "b" ∈ g dangling_catalog ∧ dataset_exists dangling_catalog "b" = false).
Proof.
  apply (delete_dataset_leaves_incoming_foreign_keys linked_datasets "b" "a").
  by_evaluation.
Defined.

(** ** Field-level business terms *)

(** C1 at the [orders] scenario: the label of the [customer] field matches,
    the resolver returns [T1], and the one [hasBusinessTerm] edge of the
    field goes to the ontology namespace followed by the whole of [T1], not
    to [T1]; the [order_id] field has no such edge. *)
Theorem field_term_edge_has_prefixed_target :
  ∃ self', add_dataset legal_entity_catalog "orders" "Orders" "Order records" None None
             None None (Some orders_fields) = Some (true, self')
    ∧ is_business_term_in_fibo legal_entity_catalog "Legal Entity" = Some [T1]
    ∧ (BNode 1, term FIELD_NS "fieldName", Lit "customer") ∈ g self'
    ∧ objects (BNode 1) (term FIELD_NS "hasBusinessTerm") (g self')
      = [URIRef (FIBO_NS +:+ T1)]
    ∧ (BNode 1, term FIELD_NS "hasBusinessTerm", URIRef T1) ∉ g self'
    ∧ ontology_typed (g self') (URIRef (FIBO_NS +:+ T1))
    ∧ ¬ ontology_typed (g self') (URIRef T1)
    ∧ objects (BNode 0) (term FIELD_NS "hasBusinessTerm") (g self') = [].
Proof.
  eexists. split; [by apply add_dataset_closed|].
  split; [vm_compute; reflexivity|].
  split; [by_evaluation|].
  split; [vm_compute; reflexivity|].
  split; [by_evaluation|].
  unfold ontology_typed.
  split; [by_evaluation|].
  split; [by_evaluation|].
  vm_compute; reflexivity.
Qed.

(** ** Replacing a dataset that has a theme *)

(** C2 at a dataset with a theme, registered twice: the theme node of the
    first registration, [BNode 0], keeps its type and its label after the
    replacement; only the edge from the dataset to it is gone. *)
Theorem theme_node_survives_replacement :
  add_dataset empty_catalog "orders" "Orders" "Order records" (Some "Finance")
    None None None None = Some (true, themed_once)
  ∧ add_dataset themed_once "orders" "Orders" "Order records" (Some "Finance")
      None None None None = Some (true, themed_twice)
  ∧ dataset_exists themed_once "orders" = true
  ∧ triples (Some (BNode 0), None, None) (g themed_once)
    ≡ₚ [ (BNode 0, term RDF "type", term SKOS "Concept");
         (BNode 0, term SKOS "prefLabel", Lit "Finance") ]
  ∧ objects (term DATASET_NS "orders") (term DCAT "theme") (g themed_once) = [BNode 0]
  ∧ (BNode 0, term RDF "type", term SKOS "Concept") ∈ g themed_twice
  ∧ (BNode 0, term SKOS "prefLabel", Lit "Finance") ∈ g themed_twice
  ∧ objects (term DATASET_NS "orders") (term DCAT "theme") (g themed_twice) = [BNode 1].
Proof.
  split; [by apply state_after_add_dataset|].
  split; [by apply state_after_add_dataset|].
  split; [vm_compute; reflexivity|].
  split; [by_evaluation|].
  split; [vm_compute; reflexivity|].
  split; [by_evaluation|].
  split; [by_evaluation|].
  vm_compute; reflexivity.
Qed.

(** ** Renaming blank nodes *)

Section rename_lemmas.
Variable ρ : nat → nat.
Implicit Types (X Y : Graph) (t : triple).

Lemma rename_union X Y : rename ρ (X ∪ Y) = rename ρ X ∪ rename ρ Y.
Proof. unfold rename. apply set_map_union_L. Qed.

Lemma rename_empty : rename ρ ∅ = ∅.
Proof. unfold rename. apply set_map_empty. Qed.

Lemma rename_singleton t : rename ρ {[ t ]} = {[ rename_triple ρ t ]}.
Proof. unfold rename. apply set_map_singleton_L. Qed.

Lemma elem_of_rename X t' : t' ∈ rename ρ X ↔ ∃ t, t' = rename_triple ρ t ∧ t ∈ X.
Proof. unfold rename. apply elem_of_map. Qed.

(** Triples without blank nodes stay. *)
Lemma rename_fixed X : (∀ t, t ∈ X → rename_triple ρ t = t) → rename ρ X = X.
Proof.
  intros H. apply set_eq. intros t'. rewrite elem_of_rename. split.
  - intros (t & -> & Ht). by rewrite (H t Ht).
  - intros Ht. exists t'. by rewrite (H t' Ht).
Qed.

Lemma rename_term_triple ns1 x1 ns2 x2 o :
  is_BNode o = false →
  rename_triple ρ (term ns1 x1, term ns2 x2, o) = (term ns1 x1, term ns2 x2, o).
Proof. intros Ho. by destruct o. Qed.

Lemma rename_list_to_set {A} (f : A → triple) (l : list A) :
  (∀ x, x ∈ l → rename_triple ρ (f x) = f x) →
  rename ρ (list_to_set (f <$> l)) = list_to_set (f <$> l).
Proof.
  intros H. apply rename_fixed. intros t Ht.
  apply elem_of_list_to_set, list_elem_of_fmap in Ht as (x & -> & Hx). by apply H.
Qed.

Lemma rename_bt_edges L m bts :
  rename ρ (bt_edges L (BNode m) bts) = bt_edges L (BNode (ρ m)) bts.
Proof.
  unfold bt_edges. induction bts as [|bt bts IH].
  - simpl. apply rename_empty.
  - rewrite !fmap_cons, !union_list_cons, rename_union, IH. f_equal.
    destruct (resolve L bt); [apply rename_empty|apply rename_singleton].
Qed.

Lemma rename_field_own L ns identifier m f :
  rename ρ (field_own L (term ns identifier) m f)
  = field_own L (term ns identifier) (ρ m) f.
Proof.
  unfold field_own. rewrite !rename_union, !rename_singleton, rename_bt_edges.
  destruct (field_description f);
    [rewrite rename_singleton|rewrite rename_empty]; reflexivity.
Qed.
End rename_lemmas.

Lemma rename_fields_own k L ns identifier m fs :
  rename (λ b, b + k) (fields_own L (term ns identifier) m fs)
  = fields_own L (term ns identifier) (m + k) fs.
Proof.
  revert m. induction fs as [|f fs IH]; intros m.
  - apply rename_empty.
  - cbn [fields_own]. rewrite rename_union, rename_field_own, IH. reflexivity.
Qed.

(** ** Registering the same dataset twice *)

Lemma subj_field_own L ds m f t :
  t ∈ field_own L ds m f →
  (subj t = BNode m ∧ pred t ≠ term FIELD_NS "hasField")
  ∨ t = (ds, term FIELD_NS "hasField", BNode m).
Proof.
  rewrite elem_of_field_own.
  intros [->|[->|[->|[(d & _ & ->)|[H| ->]]]]]; [left; by split..| |by right].
  apply pred_bt_edges in H as [Hp Hs]. left. split; [exact Hs|]. rewrite Hp. discriminate.
Qed.

Lemma subj_fields_own L ds m fs t :
  t ∈ fields_own L ds m fs →
  ∃ i, i < length fs
    ∧ ((subj t = BNode (m + i) ∧ pred t ≠ term FIELD_NS "hasField")
       ∨ t = (ds, term FIELD_NS "hasField", BNode (m + i))).
Proof.
  rewrite elem_of_fields_own. intros (i & f & Hi & Ht). exists i.
  split; [by apply lookup_lt_Some in Hi|]. by apply subj_field_own in Ht.
Qed.

Lemma hasField_fields_own L ds m fs i :
  i < length fs → (ds, term FIELD_NS "hasField", BNode (m + i)) ∈ fields_own L ds m fs.
Proof.
  intros Hi. apply lookup_lt_is_Some in Hi as [f Hf].
  apply elem_of_fields_own. exists i, f. split; [exact Hf|].
  apply elem_of_field_own. do 5 right. reflexivity.
Qed.

Section twice.
Variables (identifier title description : string).
Variables (theme : option string) (keywords : option (list string)).
Variables (issued : option string) (business_terms : option (list string)).
Variable fields : option (list field).

Let dataset : node := term DATASET_NS identifier.
Let hasField : node := term FIELD_NS "hasField".
Let own := own_triples identifier title description theme keywords issued
             business_terms fields.
Let other := other_triples identifier theme business_terms fields.
Let written' := written identifier title description theme keywords issued
                  business_terms fields.
Let first_field (n : nat) : nat := n + theme_nodes theme.

(** The subjects of the dataset's own triples. *)
Lemma subj_own L n t :
  t ∈ own L n →
  (subj t = dataset ∧ pred t ≠ hasField)
  ∨ ∃ i, i < length (items fields)
      ∧ ((subj t = BNode (first_field n + i) ∧ pred t ≠ hasField)
         ∨ t = (dataset, hasField, BNode (first_field n + i))).
Proof.
  unfold own, own_triples. rewrite !elem_of_union, elem_of_theme_edge.
  intros [[H|[_ ->]]|H].
  - left. apply subj_dataset_triples in H as (Hs & _ & Hp & _). by split.
  - left. by split.
  - right. by apply subj_fields_own in H.
Qed.

(** The subjects of the other triples a call writes. *)
Lemma subj_other L cat n t :
  t ∈ other L cat n →
  pred t ≠ hasField
  ∧ ((subj t = BNode n ∧ theme_nodes theme = 1)
     ∨ (∃ m, subj t = term FIBO_NS m)
     ∨ t = (cat, term DCAT "dataset", dataset)).
Proof.
  unfold other, other_triples, class_triples.
  rewrite !elem_of_union, elem_of_singleton, elem_of_theme_node_triples,
    elem_of_fields_classes, elem_of_list_to_set, list_elem_of_fmap.
  intros [[[(th & Hth & Ht)|(x & -> & _)]|(f & _ & H)]| ->].
  - assert (Htn : theme_nodes theme = 1) by (unfold theme_nodes; by rewrite Hth).
    destruct Ht as [-> | ->]; (split; [discriminate|left; by split]).
  - split; [discriminate|]. right. left. by exists x.
  - apply pred_bt_classes in H as [Hp [m Hs]]. split; [rewrite Hp; discriminate|].
    right. left. by exists m.
  - split; [discriminate|]. right. right. reflexivity.
Qed.

Section store.
Variables (G B L : Graph) (c : string) (n : nat).
Hypothesis HG : G = written' L (URIRef c) n ∪ B.
Hypothesis HB1 : ∀ t, t ∈ B → subj t ≠ dataset.
Hypothesis HB2 : ∀ t, t ∈ B → node_below n (subj t).

Lemma elem_of_store t : t ∈ G ↔ t ∈ own L n ∨ t ∈ other L (URIRef c) n ∨ t ∈ B.
Proof.
  rewrite HG. unfold written', written. rewrite !elem_of_union. fold own other. tauto.
Qed.

(** The field nodes of the dataset are those of the call. *)
Lemma fields_of_store x :
  (dataset, hasField, x) ∈ G ↔
    ∃ i, i < length (items fields) ∧ x = BNode (first_field n + i).
Proof.
  rewrite elem_of_store. split.
  - intros [H|[H|H]].
    + apply subj_own in H as [[_ Hp]|(i & Hi & [[Hs _]| Ht])].
      * by destruct Hp.
      * discriminate Hs.
      * exists i. split; [exact Hi|]. by injection Ht.
    + apply subj_other in H as [Hp _]. by destruct Hp.
    + by destruct (HB1 _ H).
  - intros (i & Hi & ->). left. unfold own, own_triples. apply elem_of_union. right.
    by apply hasField_fields_own.
Qed.

Lemma subtree_store :
  subtree G identifier = own L n ∪ catalog_edge_own identifier (URIRef c).
Proof.
  apply set_eq. intros t. unfold subtree.
  rewrite elem_of_filter, elem_of_union. fold dataset hasField.
  rewrite fields_of_store, (elem_of_store t). split.
  - intros [Hown [H|[H|H]]]; [by left| |].
    + right. apply subj_other in H as [_ [[Hs Htn]|[[m Hs]| ->]]].
      * destruct Hown as [Hd|(i & _ & Hi)]; rewrite Hs in *; [discriminate Hd|].
        injection Hi as Hi. unfold first_field in Hi. lia.
      * destruct Hown as [Hd|(i & _ & Hi)]; rewrite Hs in *;
          [by apply fibo_ne_dataset in Hd|discriminate Hi].
      * unfold subj in Hown. cbn [fst] in Hown.
        destruct Hown as [Hd|(i & _ & Hi)]; [|discriminate Hi].
        unfold catalog_edge_own. fold dataset. rewrite decide_True by exact Hd.
        by apply elem_of_singleton.
    + exfalso. destruct Hown as [Hd|(i & _ & Hi)]; [by apply (HB1 _ H)|].
      apply HB2 in H. rewrite Hi in H. simpl in H. unfold first_field in H. lia.
  - intros [H|H].
    + split; [|by left].
      apply subj_own in H as [[Hs _]|(i & Hi & [[Hs _]| ->])];
        [by left|right; by exists i|by left].
    + unfold catalog_edge_own in H. fold dataset in H.
      destruct (decide (URIRef c = dataset)) as [Hd|]; [|by apply elem_of_empty in H].
      apply elem_of_singleton in H as ->. split; [by left|].
      right. left. unfold other, other_triples. apply elem_of_union. right.
      by apply elem_of_singleton.
Qed.

(** The triples about the dataset node in the store. *)
Lemma dataset_triples_of_store t :
  t ∈ G → subj t = dataset →
  t ∈ own L n ∨ t = (URIRef c, term DCAT "dataset", dataset).
Proof.
  intros Ht Hs.
  assert (H : t ∈ subtree G identifier).
  { unfold subtree. apply elem_of_filter. split; [by left|exact Ht]. }
  rewrite subtree_store in H. apply elem_of_union in H as [H|H]; [by left|right].
  unfold catalog_edge_own in H. fold dataset in H.
  destruct (decide (URIRef c = dataset)); [|by apply elem_of_empty in H].
  by apply elem_of_singleton in H.
Qed.

(** As many field nodes as the call has fields. *)
Lemma field_count_of_store :
  length (objects dataset hasField G) = length (items fields).
Proof.
  unfold objects, triples. rewrite length_fmap.
  set (f := λ i, (dataset, hasField, BNode (first_field n + i))).
  assert (E : filter (λ t, matches (Some dataset, Some hasField, None) t) G
              = list_to_set (f <$> seq 0 (length (items fields)))).
  { apply set_eq. intros t.
    rewrite elem_of_filter, matches_subject_predicate, elem_of_list_to_set,
      list_elem_of_fmap. split.
    - intros [[Hs Hp] Ht]. destruct t as [[s p] o]. unfold subj, pred in *.
      cbn [fst snd] in *. subst s p.
      apply fields_of_store in Ht as (i & Hi & ->). exists i. split; [done|].
      apply elem_of_seq. lia.
    - intros (i & -> & Hi). apply elem_of_seq in Hi. split; [by split|].
      apply fields_of_store. exists i. split; [lia|done]. }
  rewrite E. change (size (list_to_set (f <$> seq 0 (length (items fields))) : Graph)
                     = length (items fields)).
  rewrite size_list_to_set.
  - by rewrite length_fmap, length_seq.
  - apply NoDup_fmap_2; [|apply NoDup_seq].
    intros i j [= H]. lia.
Qed.

(** The keywords of the dataset are those of the call. *)
Lemma keywords_of_store o :
  (dataset, term DCAT "keyword", o) ∈ G → ∃ k, k ∈ items keywords ∧ o = Lit k.
Proof.
  intros Ht. destruct (dataset_triples_of_store _ Ht eq_refl) as [H|H];
    [|discriminate H].
  unfold own, own_triples in H. rewrite !elem_of_union, elem_of_theme_edge in H.
  destruct H as [[H|[_ H]]|H]; [|discriminate H|].
  - apply elem_of_dataset_triples in H.
    destruct H as [H|[H|[H|[(k & Hk & H)|[(d & _ & H)|(x & _ & H)]]]]];
      try discriminate H.
    exists k. split; [exact Hk|]. by injection H.
  - apply subj_fields_own in H as (i & _ & [[Hs _]|H]); discriminate.
Qed.
End store.

Lemma rename_dataset_triples ρ :
  rename ρ (dataset_triples identifier title description keywords issued business_terms)
  = dataset_triples identifier title description keywords issued business_terms.
Proof.
  apply rename_fixed. intros t Ht. apply subj_dataset_triples in Ht as Hs.
  destruct Hs as (_ & _ & _ & Ho). apply elem_of_dataset_triples in Ht.
  destruct Ht as [->|[->|[->|[(k & _ & ->)|[(d & _ & ->)|(x & _ & ->)]]]]]; reflexivity.
Qed.

Lemma rename_own k L n : rename (λ b, b + k) (own L n) = own L (n + k).
Proof.
  unfold own, own_triples.
  rewrite !rename_union, rename_dataset_triples, rename_fields_own.
  replace (n + k + theme_nodes theme) with (n + theme_nodes theme + k) by lia.
  do 2 f_equal. unfold theme_edge.
  destruct (truthy theme); [apply rename_singleton|apply rename_empty].
Qed.

Lemma rename_catalog_edge_own ρ c :
  rename ρ (catalog_edge_own identifier (URIRef c)) = catalog_edge_own identifier (URIRef c).
Proof.
  unfold catalog_edge_own. case_decide; [apply rename_singleton|apply rename_empty].
Qed.

Lemma own_labels L1 L2 n : labels L1 = labels L2 → own L1 n = own L2 n.
Proof.
  intros H. unfold own, own_triples. by rewrite (fields_own_labels L1 L2).
Qed.

Lemma written_labels L1 L2 cat n :
  labels L1 = labels L2 → written' L1 cat n = written' L2 cat n.
Proof.
  intros H. unfold written', written, own_triples, other_triples.
  by rewrite (fields_own_labels L1 L2), (fields_classes_labels L1 L2).
Qed.

(** Every subject of the triples a call writes is below the counter it
    leaves. *)
Lemma written_below L c n t :
  t ∈ written' L (URIRef c) n →
  node_below (n + theme_nodes theme + length (items fields)) (subj t).
Proof.
  unfold written', written. rewrite elem_of_union. fold own other. intros [H|H].
  - apply subj_own in H as [[-> _]|(i & Hi & [[-> _]| ->])]; simpl; [done| |done].
    unfold first_field. lia.
  - apply subj_other in H as [_ [[-> Htn]|[[m ->]| ->]]]; simpl; [lia|done..].
Qed.
End twice.

Lemma node_below_le (n m : nat) x : (n ≤ m)%nat → node_below n x → node_below m x.
Proof. destruct x; simpl; [done|lia|done]. Qed.

Lemma cleared_subset identifier self t :
  t ∈ g (cleared identifier self) → t ∈ g self.
Proof.
  unfold cleared. destruct (dataset_exists self identifier); [|done].
  rewrite elem_of_delete_dataset. tauto.
Qed.

Lemma cleared_no_dataset identifier self t :
  registered_or_absent self identifier →
  t ∈ g (cleared identifier self) → subj t ≠ term DATASET_NS identifier.
Proof.
  intros Hreg. unfold cleared. destruct (dataset_exists self identifier) eqn:E.
  - rewrite elem_of_delete_dataset. tauto.
  - intros Ht. by apply (Hreg E).
Qed.

(** C7: on a store whose blank nodes are all below the counter, and where
    the dataset node has no triples unless it is registered, two calls in a
    row with the same payload return, and the subtree of the dataset after
    the second is the subtree after the first with the blank nodes renamed;
    the dataset has as many field nodes as the payload has fields, and no
    keyword but those of the payload. *)
Theorem add_dataset_twice_same_subtree (self : DCATCatalog)
    (identifier title description : string) (theme : option string)
    (keywords : option (list string)) (issued : option string)
    (business_terms : option (list string)) (fields : option (list field)) :
  plain_fields fields →
  fresh_bnodes self →
  registered_or_absent self identifier →
  ∃ s1 s2,
    add_dataset self identifier title description theme keywords issued
      business_terms fields = Some (true, s1)
    ∧ add_dataset s1 identifier title description theme keywords issued
        business_terms fields = Some (true, s2)
    ∧ (∃ ρ : nat → nat, Inj (=) (=) ρ
         ∧ subtree (g s2) identifier = rename ρ (subtree (g s1) identifier))
    ∧ length (objects (term DATASET_NS identifier) (term FIELD_NS "hasField") (g s2))
      = length (items fields)
    ∧ (∀ o, (term DATASET_NS identifier, term DCAT "keyword", o) ∈ g s2
            → ∃ k, k ∈ items keywords ∧ o = Lit k).
Proof.
  intros Hp Hfresh Hreg.
  set (W := written identifier title description theme keywords issued business_terms
              fields).
  set (B1 := g (cleared identifier self)).
  set (n0 := next_bnode self).
  set (n1 := n0 + theme_nodes theme + length (items fields)).
  set (s1 := mkCatalog (W B1 (catalog self) n0 ∪ B1) (catalog_uri self) n1).
  assert (E1 : add_dataset self identifier title description theme keywords issued
                 business_terms fields = Some (true, s1))
    by (by apply add_dataset_closed).
  assert (Hex : dataset_exists s1 identifier = true).
  { apply dataset_exists_spec. subst s1. cbn [g]. apply elem_of_union. left.
    subst W. unfold written, own_triples. rewrite !elem_of_union. do 3 left.
    apply elem_of_dataset_triples. by left. }
  assert (Hcl : cleared identifier s1 = delete_dataset s1 identifier)
    by (unfold cleared; by rewrite Hex).
  set (B2 := g (delete_dataset s1 identifier)).
  set (s2 := mkCatalog (W B2 (catalog s1) n1 ∪ B2) (catalog_uri s1)
               (n1 + theme_nodes theme + length (items fields))).
  assert (E2 : add_dataset s1 identifier title description theme keywords issued
                 business_terms fields = Some (true, s2)).
  { rewrite add_dataset_closed by done. rewrite Hcl. reflexivity. }
  exists s1, s2. split; [exact E1|]. split; [exact E2|].
  (* the store the first call writes to *)
  assert (HB1 : ∀ t, t ∈ B1 → subj t ≠ term DATASET_NS identifier)
    by (intros t; by apply cleared_no_dataset).
  assert (HB1' : ∀ t, t ∈ B1 → node_below n0 (subj t)).
  { intros t Ht. apply cleared_subset in Ht. by apply Hfresh. }
  assert (HG1 : g s1 = W B1 (URIRef (catalog_uri self)) n0 ∪ B1) by reflexivity.
  (* the store the second call writes to *)
  assert (HB2 : ∀ t, t ∈ B2 → subj t ≠ term DATASET_NS identifier).
  { intros t Ht. subst B2. apply elem_of_delete_dataset in Ht. tauto. }
  assert (HB2' : ∀ t, t ∈ B2 → node_below n1 (subj t)).
  { intros t Ht. subst B2. apply elem_of_delete_dataset in Ht as [Ht _].
    rewrite HG1 in Ht. apply elem_of_union in Ht as [Ht|Ht].
    - by apply written_below in Ht.
    - apply (node_below_le n0); [subst n1; lia|by apply HB1']. }
  assert (Hlab : labels B2 = labels B1).
  { apply set_eq. intros t. rewrite !elem_of_labels. subst B2.
    rewrite elem_of_delete_dataset, HG1, elem_of_union. split.
    - intros [[[Ht|Ht] _] Hl]; [|by split].
      by apply (pred_written identifier title description theme keywords issued
                  business_terms fields) in Ht.
    - intros [Ht Hl]. split; [|exact Hl]. split; [by right|].
      split; [by apply HB1|]. split.
      + intros Hf.
        apply (fields_of_store identifier title description theme keywords issued
                 business_terms fields _ B1 B1 (catalog_uri self) n0 eq_refl HB1)
          in Hf as (i & _ & Hi).
        apply HB1' in Ht. rewrite Hi in Ht. simpl in Ht. lia.
      + intros ->. discriminate Hl. }
  assert (HG2 : g s2 = W B2 (URIRef (catalog_uri self)) n1 ∪ B2) by reflexivity.
  split; [|split].
  - exists (λ b, b + (theme_nodes theme + length (items fields))).
    split; [intros a b H; lia|].
    rewrite (subtree_store identifier title description theme keywords issued
               business_terms fields _ B2 B2 (catalog_uri self) n1 HG2 HB2 HB2').
    rewrite (subtree_store identifier title description theme keywords issued
               business_terms fields _ B1 B1 (catalog_uri self) n0 HG1 HB1 HB1').
    rewrite rename_union, rename_own, rename_catalog_edge_own.
    rewrite (own_labels _ _ _ _ _ _ _ _ B2 B1 _ Hlab).
    do 2 f_equal. subst n1. lia.
  - exact (field_count_of_store identifier title description theme keywords issued
             business_terms fields _ B2 B2 (catalog_uri self) n1 HG2 HB2).
  - intros o.
    exact (keywords_of_store identifier title description theme keywords issued
             business_terms fields _ B2 B2 (catalog_uri self) n1 HG2 HB2 HB2' o).
Qed.

Lemma add_dataset_twice_same_subtree_witness :
  ∃ s1 s2,
    add_dataset legal_entity_catalog "orders" "Orders" "Order records" (Some "Finance")
      (Some ["a"; "a"]) None (Some ["LegalEntity"]) (Some orders_fields) = Some (true, s1)
    ∧ add_dataset s1 "orders" "Orders" "Order records" (Some "Finance")
        (Some ["a"; "a"]) None (Some ["LegalEntity"]) (Some orders_fields) = Some (true, s2)
    ∧ (∃ ρ : nat → nat, Inj (=) (=) ρ
         ∧ subtree (g s2) "orders" = rename ρ (subtree (g s1) "orders"))
    ∧ length (objects (term DATASET_NS "orders") (term FIELD_NS "hasField") (g s2))
      = length (items (Some orders_fields))
    ∧ (∀ o, (term DATASET_NS "orders", term DCAT "keyword", o) ∈ g s2
            → ∃ k, k ∈ items (Some ["a"; "a"]) ∧ o = Lit k).
Proof.
  apply (add_dataset_twice_same_subtree legal_entity_catalog "orders" "Orders"
           "Order records" (Some "Finance") (Some ["a"; "a"]) None (Some ["LegalEntity"])
           (Some orders_fields)).
  - reflexivity.
  - by_evaluation.
  - by_evaluation.
Defined.


(** ** More on [delete_dataset] *)

Lemma delete_dataset_absent self identifier :
  (∀ t, t ∈ g self → subj t ≠ term DATASET_NS identifier) →
  (catalog self, term DCAT "dataset", term DATASET_NS identifier) ∉ g self →
  delete_dataset self identifier = self.
Proof.
  intros Hs Hc.
  assert (E : g (delete_dataset self identifier) = g self).
  { apply set_eq. intros t. rewrite elem_of_delete_dataset. split; [tauto|].
    intros Ht. split; [exact Ht|]. split; [by apply Hs|]. split.
    - intros Hf. by apply (Hs _ Hf).
    - intros ->. by apply Hc. }
  destruct self as [G c n]. unfold delete_dataset, with_g in *. cbn [g catalog_uri next_bnode] in *.
  by rewrite E.
Qed.

(** X1: deleting a dataset the store says nothing about changes nothing,
    and raises nothing. *)
Theorem delete_dataset_of_absent (self : DCATCatalog) (identifier : string) :
  (∀ t, t ∈ g self → subj t ≠ term DATASET_NS identifier) →
  (catalog self, term DCAT "dataset", term DATASET_NS identifier) ∉ g self →
  dataset_exists self identifier = false
  ∧ delete_dataset self identifier = self.
Proof.
  intros Hs Hc. split; [|by apply delete_dataset_absent].
  apply not_true_is_false. rewrite dataset_exists_spec. intros H. by apply (Hs _ H).
Qed.

Lemma delete_dataset_of_absent_witness :
  dataset_exists empty_catalog "orders" = false
  ∧ delete_dataset empty_catalog "orders" = empty_catalog.
Proof.
  apply (delete_dataset_of_absent empty_catalog "orders").
  - apply (bool_decide_unpack
             (set_Forall (λ t, subj t ≠ term DATASET_NS "orders") (g empty_catalog))).
    vm_compute. exact I.
  - by_evaluation.
Defined.

(** X2: deleting twice is deleting once. *)
Theorem delete_dataset_idempotent (self : DCATCatalog) (identifier : string) :
  delete_dataset (delete_dataset self identifier) identifier
  = delete_dataset self identifier.
Proof.
  apply delete_dataset_absent.
  - intros t Ht. apply elem_of_delete_dataset in Ht. tauto.
  - intros Ht. apply elem_of_delete_dataset in Ht as (_ & _ & _ & H). by apply H.
Qed.


(** ** The stores the operations build *)

Lemma prefix_append (p x : string) : String.prefix p (p +:+ x) = true.
Proof.
  induction p as [|c p IH]; simpl; [by destruct x|].
  destruct (Ascii.ascii_dec c c) as [_|H]; [exact IH|by destruct H].
Qed.

Lemma in_namespace_term ns x : in_namespace ns (term ns x) = true.
Proof. apply prefix_append. Qed.

Lemma in_namespace_URIRef ns x : in_namespace ns x = true → is_BNode x = false.
Proof. by destruct x. Qed.

Lemma fibo_not_dataset_namespace m : in_namespace DATASET_NS (term FIBO_NS m) = false.
Proof. reflexivity. Qed.

Lemma registered_or_absent_of self identifier :
  datasets_registered (g self) → registered_or_absent self identifier.
Proof.
  intros H E t Ht Hs. specialize (H t Ht). cbv beta in H. rewrite Hs in H.
  rewrite in_namespace_term in H. specialize (H I).
  apply dataset_exists_spec in H. congruence.
Qed.

Lemma subj_written identifier title description theme keywords issued business_terms
    fields L cat n t :
  t ∈ written identifier title description theme keywords issued business_terms fields
        L cat n →
  subj t = term DATASET_NS identifier ∨ is_BNode (subj t) = true
  ∨ (∃ m, subj t = term FIBO_NS m) ∨ subj t = cat.
Proof.
  unfold written. rewrite elem_of_union. intros [H|H].
  - apply subj_own in H as [[Hs _]|(i & _ & [[Hs _]| ->])];
      [by left|right; left; by rewrite Hs|by left].
  - apply subj_other in H as [_ [[Hs _]|[[m Hs]| ->]]];
      [right; left; by rewrite Hs|right; right; left; by exists m|by do 3 right].
Qed.

Lemma hasField_written identifier title description theme keywords issued business_terms
    fields L cat n t :
  t ∈ written identifier title description theme keywords issued business_terms fields
        L cat n →
  pred t = term FIELD_NS "hasField" → is_BNode (obj t) = true.
Proof.
  unfold written. rewrite elem_of_union. intros [H|H] Hp.
  - apply subj_own in H as [[_ Hn]|(i & _ & [[_ Hn]| ->])]; [by destruct Hn..|done].
  - apply subj_other in H as [Hn _]. by destruct Hn.
Qed.

Lemma cleared_keeps_type self identifier x :
  anonymous_fields (g self) → is_BNode x = false → x ≠ term DATASET_NS identifier →
  (x, term RDF "type", term DCAT "Dataset") ∈ g self →
  (x, term RDF "type", term DCAT "Dataset") ∈ g (cleared identifier self).
Proof.
  intros Ha Hx Hne Hin. unfold cleared. destruct (dataset_exists self identifier); [|done].
  apply elem_of_delete_dataset. split; [exact Hin|]. split; [exact Hne|]. split.
  - by apply not_field_of_anonymous.
  - intros H. apply (f_equal pred) in H. discriminate H.
Qed.

(** X3: [add_dataset] keeps the store well-formed (fields anonymous, blank
    nodes below the counter, every dataset node that has triples registered,
    the catalog node outside the dataset namespace); it leaves the catalog
    node as it is and takes one blank node for a theme that is not empty and
    one for each field. *)
Theorem add_dataset_well_formed (self : DCATCatalog)
    (identifier title description : string) (theme : option string)
    (keywords : option (list string)) (issued : option string)
    (business_terms : option (list string)) (fields : option (list field)) :
  plain_fields fields → well_formed self →
  ∃ self', add_dataset self identifier title description theme keywords issued
             business_terms fields = Some (true, self')
    ∧ well_formed self'
    ∧ catalog self' = catalog self
    ∧ next_bnode self' = next_bnode self + theme_nodes theme + length (items fields).
Proof.
  intros Hp (Ha & Hf & Hr & Hc). eexists. split; [by apply add_dataset_closed|].
  split; [|split; reflexivity].
  set (W := written _ _ _ _ _ _ _ _ _ _ _). set (B := g (cleared identifier self)).
  split; [|split; [|split]]; unfold fresh_bnodes; cbn [g next_bnode].
  - intros t [Ht|Ht]%elem_of_union Hp'.
    + apply Is_true_true. by apply hasField_written in Ht.
    + apply cleared_subset in Ht. by apply Ha.
  - intros t [Ht|Ht]%elem_of_union.
    + subst W. unfold catalog in Ht. apply written_below in Ht. exact Ht.
    + apply cleared_subset in Ht.
      apply (node_below_le (next_bnode self)); [lia|by apply Hf].
  - intros t Ht Hn.
    assert (Hty : (term DATASET_NS identifier, term RDF "type", term DCAT "Dataset") ∈ W).
    { subst W. unfold written, own_triples. rewrite !elem_of_union. do 3 left.
      apply elem_of_dataset_triples. by left. }
    destruct (decide (subj t = term DATASET_NS identifier)) as [->|Hne];
      [apply elem_of_union; by left|].
    assert (Hn' : in_namespace DATASET_NS (subj t) = true) by (by apply Is_true_true).
    apply elem_of_union in Ht as [Ht|Ht].
    + apply subj_written in Ht as [Hs|[Hs|[[m Hs]|Hs]]].
      * by destruct Hne.
      * apply in_namespace_URIRef in Hn'. congruence.
      * rewrite Hs, fibo_not_dataset_namespace in Hn'. discriminate Hn'.
      * rewrite Hs in Hn'. congruence.
    + apply elem_of_union. right.
      apply cleared_keeps_type; [exact Ha|by apply (in_namespace_URIRef DATASET_NS)
                                |exact Hne|].
      apply cleared_subset in Ht. by apply (Hr t Ht).
  - exact Hc.
Qed.

(** X4: [delete_dataset] keeps the store well-formed: what it removes
    never leaves a dataset node with triples and without its type. *)
Theorem delete_dataset_well_formed (self : DCATCatalog) (identifier : string) :
  well_formed self → well_formed (delete_dataset self identifier).
Proof.
  intros (Ha & Hf & Hr & Hc). split; [|split; [|split]].
  - intros t Ht. apply elem_of_delete_dataset in Ht as [Ht _]. by apply Ha.
  - intros t Ht. apply elem_of_delete_dataset in Ht as [Ht _]. by apply Hf.
  - intros t Ht Hn. apply elem_of_delete_dataset in Ht as (Ht & Hne & Hnf & _).
    apply elem_of_delete_dataset. split; [by apply Hr|]. split; [exact Hne|].
    split; [exact Hnf|]. intros H. apply (f_equal pred) in H. discriminate H.
  - exact Hc.
Qed.

(** X15: [add_foreign_key_relationship] keeps the store well-formed,
    whether it adds the edge or raises. *)
Theorem add_foreign_key_relationship_well_formed (self : DCATCatalog)
    (from_dataset to_dataset : string) (description : option string) :
  well_formed self →
  well_formed (add_foreign_key_relationship self from_dataset to_dataset description).2.
Proof.
  intros Hw.
  destruct (dataset_exists self from_dataset) eqn:Hfrom;
    [destruct (dataset_exists self to_dataset) eqn:Hto|].
  - rewrite add_foreign_key_relationship_exists by done. cbn [snd].
    destruct Hw as (Ha & Hf & Hr & Hc).
    set (G' := match truthy description with | Some _ => _ | None => _ end _).
    assert (HG : ∀ t, t ∈ G' ↔
              t = foreign_key from_dataset to_dataset
              ∨ (∃ d, truthy description = Some d
                      ∧ t = (term DATASET_NS from_dataset, term RDFS "comment", Lit d))
              ∨ t ∈ g self).
    { intros t. subst G'. destruct (truthy description) as [d|]; cbn [id];
        rewrite !elem_of_add.
      - split; [intros [->|[->|?]]; eauto|intros [->|[(d' & [= <-] & ->)|?]]; eauto].
      - split; [intros [->|?]; eauto|intros [->|[(d' & Hd & _)|?]]; [eauto|done|eauto]]. }
    split; [|split; [|split]]; unfold fresh_bnodes; cbn [with_g g next_bnode].
    + intros t Ht Hp. apply HG in Ht as [->|[(d & _ & ->)|Ht]]; [discriminate Hp..|].
      by apply Ha.
    + intros t Ht. apply HG in Ht as [->|[(d & _ & ->)|Ht]]; [done..|]. by apply Hf.
    + intros t Ht Hn. apply HG. right. right.
      apply HG in Ht as [->|[(d & _ & ->)|Ht]];
        [by apply dataset_exists_spec..|by apply Hr].
    + exact Hc.
  - by rewrite add_foreign_key_relationship_missing by (by right).
  - by rewrite add_foreign_key_relationship_missing by (by left).
Qed.

(** X16: the store [DCATCatalog()] starts with is well-formed when the
    ontology is: its field edges end in blank nodes, its blank nodes are
    below the counter, its dataset nodes are typed, and the catalog
    identifier is outside the dataset namespace. *)
Theorem init_well_formed (catalog_uri : string) (ontology : Graph) (fresh : nat) :
  anonymous_fields ontology →
  set_Forall (λ t, node_below fresh (subj t)) ontology →
  datasets_registered ontology →
  String.prefix DATASET_NS catalog_uri = false →
  well_formed (init catalog_uri ontology fresh).
Proof.
  intros Ha Hf Hr Hc.
  assert (HG : ∀ t, t ∈ g (init catalog_uri ontology fresh) ↔
            t ∈ ontology
            ∨ t = (URIRef catalog_uri, term DCTERMS "description",
                   Lit "This is the main data catalog for our organization")
            ∨ t = (URIRef catalog_uri, term DCTERMS "title", Lit "Main Data Catalog")
            ∨ t = (URIRef catalog_uri, term RDF "type", term DCAT "Catalog")).
  { intros t. unfold init. cbn [g]. rewrite elem_of_union, !elem_of_add.
    rewrite elem_of_empty. tauto. }
  split; [|split; [|split]].
  - intros t Ht Hp. apply HG in Ht as [Ht|[->|[->| ->]]]; [by apply Ha|discriminate Hp..].
  - intros t Ht. apply HG in Ht as [Ht|[->|[->| ->]]]; [by apply Hf|done..].
  - intros t Ht Hn. apply HG in Ht as [Ht|[->|[->| ->]]];
      [apply HG; left; by apply Hr| | |];
      unfold subj in Hn; cbn [fst in_namespace] in Hn; rewrite Hc in Hn; by destruct Hn.
  - exact Hc.
Qed.


(** ** What [add_dataset] leaves about the dataset node *)

Lemma truthy_Some o d : truthy o = Some d ↔ o = Some d ∧ d ≠ "".
Proof.
  unfold truthy. destruct o as [s|]; [|split; [done|by intros [? _]]].
  case_bool_decide as H; split.
  - done.
  - intros [[= ->] Hd]. by destruct Hd.
  - intros [= ->]. by split.
  - by intros [[= ->] _].
Qed.

Lemma theme_nodes_1 theme : theme_nodes theme = 1 ↔ ∃ th, theme = Some th ∧ th ≠ "".
Proof.
  unfold theme_nodes. destruct (truthy theme) as [th|] eqn:E.
  - apply truthy_Some in E. split; [by exists th|done].
  - split; [done|]. intros (th & Hth). apply truthy_Some in Hth. congruence.
Qed.

Section dataset_node.
Variables (identifier title description : string).
Variables (theme : option string) (keywords : option (list string)).
Variables (issued : option string) (business_terms : option (list string)).
Variable fields : option (list field).
Variables (B L : Graph) (cat : node) (n : nat).
Hypothesis HB : ∀ t, t ∈ B → subj t ≠ term DATASET_NS identifier.

Let dataset : node := term DATASET_NS identifier.
Let G : Graph :=
  written identifier title description theme keywords issued business_terms fields L cat n
  ∪ B.

(** A triple of the store about the dataset node, whose predicate is none
    of [hasField], [dcat:theme] and [dcat:dataset], is one of the attribute
    triples of the call. *)
Lemma attribute_of_dataset p o :
  p ≠ term FIELD_NS "hasField" → p ≠ term DCAT "theme" → p ≠ term DCAT "dataset" →
  (dataset, p, o) ∈ G ↔
    (dataset, p, o)
    ∈ dataset_triples identifier title description keywords issued business_terms.
Proof.
  intros Hp1 Hp2 Hp3. subst G. unfold written, own_triples. rewrite !elem_of_union.
  split; [|tauto].
  intros [[[[H|H]|H]|H]|H].
  - exact H.
  - apply elem_of_theme_edge in H as [_ [= H1 _]]. by destruct Hp2.
  - apply subj_fields_own in H as (i & _ & [[Hs _]|[= H1 _]]);
      [discriminate Hs|by destruct Hp1].
  - apply subj_other in H as [_ [[Hs _]|[[m Hs]|[= _ H1 _]]]];
      [discriminate Hs|by apply eq_sym, fibo_ne_dataset in Hs|by destruct Hp3].
  - by destruct (HB _ H).
Qed.

Lemma theme_of_dataset o :
  (dataset, term DCAT "theme", o) ∈ G ↔ theme_nodes theme = 1 ∧ o = BNode n.
Proof.
  subst G. unfold written, own_triples. rewrite !elem_of_union. split.
  - intros [[[[H|H]|H]|H]|H].
    + apply elem_of_dataset_triples in H.
      destruct H as [H|[H|[H|[(k & _ & H)|[(d & _ & H)|(x & _ & H)]]]]]; discriminate H.
    + apply elem_of_theme_edge in H as [Htn [= ->]]. by split.
    + apply subj_fields_own in H as (i & _ & [[Hs _]|H]); discriminate.
    + apply subj_other in H as [_ [[Hs _]|[[m Hs]|H]]];
        [discriminate Hs|by apply eq_sym, fibo_ne_dataset in Hs|discriminate H].
    + by destruct (HB _ H).
  - intros [Htn ->]. do 3 left. right. by apply elem_of_theme_edge.
Qed.
End dataset_node.

(** X5: after [add_dataset] on a store where the dataset node has no
    triples unless it is registered, the dataset is registered, the catalog
    has its edge to it, and the title, description, keywords, [seeAlso]
    edges and theme edge of the dataset node are those of the call and no
    others; the node has an issue date exactly when the call has one, and
    then a single one, a literal of type [xsd:date] (in the lexical form
    rdflib gives it); an empty theme or date counts as none. *)
Theorem add_dataset_replaces_attributes (self : DCATCatalog)
    (identifier title description : string) (theme : option string)
    (keywords : option (list string)) (issued : option string)
    (business_terms : option (list string)) (fields : option (list field)) :
  plain_fields fields →
  registered_or_absent self identifier →
  let dataset := term DATASET_NS identifier in
  ∃ self', add_dataset self identifier title description theme keywords issued
             business_terms fields = Some (true, self')
    ∧ dataset_exists self' identifier = true
    ∧ (catalog self, term DCAT "dataset", dataset) ∈ g self'
    ∧ (∀ o, (dataset, term DCTERMS "title", o) ∈ g self' ↔ o = Lit title)
    ∧ (∀ o, (dataset, term DCTERMS "description", o) ∈ g self' ↔ o = Lit description)
    ∧ (∀ o, (dataset, term DCAT "keyword", o) ∈ g self'
            ↔ ∃ k, k ∈ items keywords ∧ o = Lit k)
    ∧ ((∃ o, (dataset, term DCTERMS "issued", o) ∈ g self')
       ↔ ∃ d, issued = Some d ∧ d ≠ "")
    ∧ (∀ o o', (dataset, term DCTERMS "issued", o) ∈ g self' →
               (dataset, term DCTERMS "issued", o') ∈ g self' →
               o = o' ∧ ∃ lexical, o = Literal lexical (Some (XSD +:+ "date")) None)
    ∧ (∀ o, (dataset, term RDFS "seeAlso", o) ∈ g self'
            ↔ ∃ x, x ∈ items business_terms ∧ o = term FIBO_NS x)
    ∧ (∀ o, (dataset, term DCAT "theme", o) ∈ g self'
            ↔ (∃ th, theme = Some th ∧ th ≠ "") ∧ o = BNode (next_bnode self)).
Proof.
  intros Hp Hreg dataset. eexists. split; [by apply add_dataset_closed|]. cbn [g].
  assert (HB : ∀ t, t ∈ g (cleared identifier self) → subj t ≠ term DATASET_NS identifier)
    by (intros t; by apply cleared_no_dataset).
  assert (Hattr := attribute_of_dataset identifier title description theme keywords issued
                     business_terms fields _ (g (cleared identifier self)) (catalog self)
                     (next_bnode self) HB).
  fold dataset in Hattr.
  assert (Hissued : ∀ o, (dataset, term DCTERMS "issued", o)
                         ∈ written identifier title description theme keywords issued
                             business_terms fields (g (cleared identifier self))
                             (catalog self) (next_bnode self)
                           ∪ g (cleared identifier self)
                         ↔ ∃ d, truthy issued = Some d
                                ∧ o = Literal d (Some (XSD +:+ "date")) None).
  { intros o. rewrite Hattr by discriminate. rewrite elem_of_dataset_triples. split.
    - intros [H|[H|[H|[(k & _ & H)|[(d & Hd & H)|(x & _ & H)]]]]]; try discriminate H.
      exists d. split; [exact Hd|by injection H].
    - intros (d & Hd & ->). do 4 right. left. by exists d. }
  split; [|split; [|split; [|split; [|split; [|split; [|split; [|split]]]]]]].
  - apply dataset_exists_spec. cbn [g]. apply Hattr; [discriminate..|].
    apply elem_of_dataset_triples. by left.
  - apply elem_of_union. left. unfold written, other_triples. rewrite !elem_of_union.
    right. right. by apply elem_of_singleton.
  - intros o. rewrite Hattr by discriminate. rewrite elem_of_dataset_triples. split.
    + intros [H|[H|[H|[(k & _ & H)|[(d & _ & H)|(x & _ & H)]]]]]; try discriminate H.
      by injection H.
    + intros ->. right. by left.
  - intros o. rewrite Hattr by discriminate. rewrite elem_of_dataset_triples. split.
    + intros [H|[H|[H|[(k & _ & H)|[(d & _ & H)|(x & _ & H)]]]]]; try discriminate H.
      by injection H.
    + intros ->. do 2 right. by left.
  - intros o. rewrite Hattr by discriminate. rewrite elem_of_dataset_triples. split.
    + intros [H|[H|[H|[(k & Hk & H)|[(d & _ & H)|(x & _ & H)]]]]]; try discriminate H.
      exists k. split; [exact Hk|by injection H].
    + intros (k & Hk & ->). do 3 right. left. by exists k.
  - split.
    + intros (o & Ho). apply Hissued in Ho as (d & Hd & _).
      exists d. by apply truthy_Some.
    + intros (d & Hd). eexists. apply Hissued. exists d.
      split; [by apply truthy_Some|reflexivity].
  - intros o o' Ho Ho'. apply Hissued in Ho as (d & Hd & ->).
    apply Hissued in Ho' as (d' & Hd' & ->).
    split; [congruence|by exists d].
  - intros o. rewrite Hattr by discriminate. rewrite elem_of_dataset_triples. split.
    + intros [H|[H|[H|[(k & _ & H)|[(d & _ & H)|(x & Hx & H)]]]]]; try discriminate H.
      exists x. split; [exact Hx|by injection H].
    + intros (x & Hx & ->). do 5 right. by exists x.
  - intros o. etransitivity.
    + apply (theme_of_dataset identifier title description theme keywords issued
               business_terms fields _ (g (cleared identifier self)) (catalog self)
               (next_bnode self) HB).
    + by rewrite theme_nodes_1.
Qed.


(** ** What [add_dataset] and [delete_dataset] leave of the other datasets *)

Lemma cleared_keeps_other self identifier t :
  anonymous_fields (g self) → in_namespace DATASET_NS (catalog self) = false →
  in_namespace DATASET_NS (subj t) = true → subj t ≠ term DATASET_NS identifier →
  t ∈ g self → t ∈ g (cleared identifier self).
Proof.
  intros Ha Hc Hn Hne Ht. unfold cleared. destruct (dataset_exists self identifier); [|done].
  apply elem_of_delete_dataset. split; [exact Ht|]. split; [exact Hne|]. split.
  - apply not_field_of_anonymous; [exact Ha|by apply (in_namespace_URIRef DATASET_NS)].
  - intros ->. unfold subj in Hn. cbn [fst] in Hn. congruence.
Qed.

(** X6: [add_dataset] leaves the triples of every other dataset node as
    they are, and with them its registration. *)
Theorem add_dataset_keeps_other_datasets (self : DCATCatalog)
    (identifier title description : string) (theme : option string)
    (keywords : option (list string)) (issued : option string)
    (business_terms : option (list string)) (fields : option (list field))
    (other : string) :
  plain_fields fields →
  anonymous_fields (g self) →
  in_namespace DATASET_NS (catalog self) = false →
  other ≠ identifier →
  ∃ self', add_dataset self identifier title description theme keywords issued
             business_terms fields = Some (true, self')
    ∧ (∀ t, subj t = term DATASET_NS other → (t ∈ g self' ↔ t ∈ g self))
    ∧ dataset_exists self' other = dataset_exists self other.
Proof.
  intros Hp Ha Hc Hne. eexists. split; [by apply add_dataset_closed|]. cbn [g].
  assert (Hne' : term DATASET_NS other ≠ term DATASET_NS identifier)
    by (intros H; by apply term_inj in H).
  assert (H : ∀ t, subj t = term DATASET_NS other →
            t ∈ written identifier title description theme keywords issued business_terms
                  fields (g (cleared identifier self)) (catalog self) (next_bnode self)
                ∪ g (cleared identifier self)
            ↔ t ∈ g self).
  { intros t Hs. rewrite elem_of_union. split.
    - intros [Ht|Ht]; [|by apply cleared_subset in Ht].
      apply subj_written in Ht as [Hd|[Hb|[[m Hm]|Hcat]]]; rewrite Hs in *.
      + by destruct Hne'.
      + discriminate Hb.
      + by apply eq_sym, fibo_ne_dataset in Hm.
      + rewrite <- Hcat, in_namespace_term in Hc. discriminate Hc.
    - intros Ht. right. apply cleared_keeps_other; [done..| |by rewrite Hs|done].
      rewrite Hs. apply in_namespace_term. }
  split; [exact H|].
  unfold dataset_exists. cbn [g]. apply bool_decide_ext, H. reflexivity.
Qed.

(** X7: [delete_dataset] leaves the triples of every other dataset node as
    they are, and with them its registration. *)
Theorem delete_dataset_keeps_other_datasets (self : DCATCatalog)
    (identifier other : string) :
  anonymous_fields (g self) →
  in_namespace DATASET_NS (catalog self) = false →
  other ≠ identifier →
  (∀ t, subj t = term DATASET_NS other
        → (t ∈ g (delete_dataset self identifier) ↔ t ∈ g self))
  ∧ dataset_exists (delete_dataset self identifier) other = dataset_exists self other.
Proof.
  intros Ha Hc Hne.
  assert (H : ∀ t, subj t = term DATASET_NS other
              → (t ∈ g (delete_dataset self identifier) ↔ t ∈ g self)).
  { intros t Hs. rewrite elem_of_delete_dataset. split; [tauto|]. intros Ht.
    split; [exact Ht|]. rewrite Hs. split; [intros H; by apply term_inj in H|]. split.
    - by apply not_field_of_anonymous.
    - intros ->. unfold subj in Hs. cbn [fst] in Hs.
      rewrite Hs, in_namespace_term in Hc. discriminate Hc. }
  split; [exact H|]. unfold dataset_exists. apply bool_decide_ext, H. reflexivity.
Qed.

(** ** The field nodes of a call *)

(** X8: with [BNode()] fresh, and the labels of the fields such that the
    query text reads them back as they are (no double quote, backslash, line
    break or tab), the i-th field of the call gets the i-th new blank node
    for itself: the dataset has its [hasField] edge to it, the type, name
    and data type of the node are those of the field and no others, it has
    the description the field has, and it has a [hasBusinessTerm] edge
    exactly when one of the labels of the field has a match. *)
Theorem add_dataset_field_nodes (self : DCATCatalog)
    (identifier title description : string) (theme : option string)
    (keywords : option (list string)) (issued : option string)
    (business_terms : option (list string)) (fields : option (list field)) :
  plain_fields fields →
  fresh_bnodes self →
  ∃ self', add_dataset self identifier title description theme keywords issued
             business_terms fields = Some (true, self')
    ∧ ∀ i f, items fields !! i = Some f →
        let field_node := BNode (next_bnode self + theme_nodes theme + i) in
        (term DATASET_NS identifier, term FIELD_NS "hasField", field_node) ∈ g self'
        ∧ (∀ o, (field_node, term RDF "type", o) ∈ g self' ↔ o = term FIELD_NS "Field")
        ∧ (∀ o, (field_node, term FIELD_NS "fieldName", o) ∈ g self'
                ↔ o = Lit (field_name f))
        ∧ (∀ o, (field_node, term FIELD_NS "fieldType", o) ∈ g self'
                ↔ o = Lit (field_type f))
        ∧ (∀ o, (field_node, term FIELD_NS "fieldDescription", o) ∈ g self'
                ↔ ∃ d, field_description f = Some d ∧ o = Lit d)
        ∧ ((∃ o, (field_node, term FIELD_NS "hasBusinessTerm", o) ∈ g self')
           ↔ ∃ bt, bt ∈ items (field_business_terms f)
                   ∧ resolve (g (cleared identifier self)) bt ≠ []).
Proof.
  intros Hp Hfresh. eexists. split; [by apply add_dataset_closed|]. cbn [g].
  intros i f Hi.
  set (B := g (cleared identifier self)). set (m := next_bnode self + theme_nodes theme).
  set (field_node := BNode (m + i)).
  assert (HB : ∀ t, t ∈ B → subj t ≠ field_node).
  { intros t Ht Hs. apply cleared_subset, Hfresh in Ht. rewrite Hs in Ht.
    simpl in Ht. lia. }
  assert (Hown : ∀ p o,
            (field_node, p, o)
            ∈ written identifier title description theme keywords issued business_terms
                fields B (catalog self) (next_bnode self) ∪ B
            ↔ (field_node, p, o) ∈ field_own B (term DATASET_NS identifier) (m + i) f).
  { intros p o. rewrite elem_of_union. unfold written, own_triples.
    rewrite !elem_of_union, elem_of_fields_own. split.
    - intros [[[[H|H]|H]|H]|H].
      + apply subj_dataset_triples in H as [Hs _]. discriminate Hs.
      + apply elem_of_theme_edge in H as [_ H]. discriminate H.
      + destruct H as (j & f' & Hj & H).
        assert (j = i) as ->.
        { apply subj_field_own in H as [[Hs _]|Hs]; [|discriminate Hs].
          injection Hs as Hs. lia. }
        fold m in H. by replace f' with f in H by congruence.
      + apply subj_other in H as [_ [[Hs Htn]|[[x Hs]|H]]].
        * injection Hs as Hs. lia.
        * discriminate Hs.
        * discriminate H.
      + by destruct (HB _ H).
    - intros H. do 2 left. right. by exists i, f. }
  split; [|split; [|split; [|split; [|split]]]].
  - apply elem_of_union. left. unfold written, own_triples. rewrite !elem_of_union.
    left. right. apply hasField_fields_own. by apply lookup_lt_Some in Hi.
  - intros o. rewrite Hown, elem_of_field_own. split.
    + intros [H|[H|[H|[(d & _ & H)|[H|H]]]]]; try discriminate H; [by injection H|].
      apply pred_bt_edges in H as [H _]. discriminate H.
    + intros ->. by left.
  - intros o. rewrite Hown, elem_of_field_own. split.
    + intros [H|[H|[H|[(d & _ & H)|[H|H]]]]]; try discriminate H; [by injection H|].
      apply pred_bt_edges in H as [H _]. discriminate H.
    + intros ->. right. by left.
  - intros o. rewrite Hown, elem_of_field_own. split.
    + intros [H|[H|[H|[(d & _ & H)|[H|H]]]]]; try discriminate H; [by injection H|].
      apply pred_bt_edges in H as [H _]. discriminate H.
    + intros ->. do 2 right. by left.
  - intros o. rewrite Hown, elem_of_field_own. split.
    + intros [H|[H|[H|[(d & Hd & H)|[H|H]]]]]; try discriminate H.
      * exists d. split; [exact Hd|by injection H].
      * apply pred_bt_edges in H as [H _]. discriminate H.
    + intros (d & Hd & ->). do 3 right. left. by exists d.
  - split.
    + intros [o H]. apply Hown, elem_of_field_own in H.
      destruct H as [H|[H|[H|[(d & _ & H)|[H|H]]]]]; try discriminate H.
      apply elem_of_bt_edges in H as (bt & m0 & rest & Hbt & E & _).
      exists bt. split; [exact Hbt|]. by rewrite E.
    + intros (bt & Hbt & Hne). destruct (resolve B bt) as [|m0 rest] eqn:E; [done|].
      exists (term FIBO_NS m0). apply Hown, elem_of_field_own. do 4 right. left.
      apply elem_of_bt_edges. by exists bt, m0, rest.
Qed.


(** ** Labels, and so term resolution, under the operations *)

Lemma is_business_term_in_fibo_labels self1 self2 v :
  labels (g self1) = labels (g self2) →
  is_business_term_in_fibo self1 v = is_business_term_in_fibo self2 v.
Proof.
  intros H. unfold is_business_term_in_fibo. destruct (plain v); [|done].
  f_equal. by apply (resolve_labels (g self1) (g self2)).
Qed.

Lemma resolve_subset G1 G2 v u : G1 ⊆ G2 → u ∈ resolve G1 v → u ∈ resolve G2 v.
Proof.
  intros Hsub. rewrite !elem_of_resolve. intros (n & lbl & H & Hs & Hu).
  exists n, lbl. split; [by apply Hsub|done].
Qed.

(** X9: no operation adds a label.  After [add_dataset] the labels of the
    store are those of the store it started to write to, and the term
    resolver answers as before when the dataset was not registered; after
    [delete_dataset] the resolver returns nothing it did not return before;
    [add_foreign_key_relationship] leaves its answers as they are. *)
Theorem operations_add_no_labels (self : DCATCatalog)
    (identifier title description : string) (theme : option string)
    (keywords : option (list string)) (issued : option string)
    (business_terms : option (list string)) (fields : option (list field))
    (from_dataset to_dataset : string) (comment : option string) :
  plain_fields fields →
  (∃ self', add_dataset self identifier title description theme keywords issued
              business_terms fields = Some (true, self')
     ∧ labels (g self') = labels (g (cleared identifier self))
     ∧ (∀ v u, u ∈ resolve (g self') v → u ∈ resolve (g self) v)
     ∧ (dataset_exists self identifier = false
        → ∀ v, is_business_term_in_fibo self' v = is_business_term_in_fibo self v))
  ∧ (∀ v u, u ∈ resolve (g (delete_dataset self identifier)) v → u ∈ resolve (g self) v)
  ∧ (∀ v, is_business_term_in_fibo
            (add_foreign_key_relationship self from_dataset to_dataset comment).2 v
          = is_business_term_in_fibo self v).
Proof.
  intros Hp. split; [|split].
  - eexists. split; [by apply add_dataset_closed|]. cbn [g].
    assert (Hl : labels (written identifier title description theme keywords issued
                           business_terms fields (g (cleared identifier self))
                           (catalog self) (next_bnode self)
                         ∪ g (cleared identifier self))
                 = labels (g (cleared identifier self))).
    { apply labels_union_none. intros t. apply pred_written. }
    split; [exact Hl|]. split.
    + intros v u Hu. rewrite (resolve_labels _ (g (cleared identifier self))) in Hu by done.
      revert Hu. apply resolve_subset. intros t. apply cleared_subset.
    + intros Hex v. apply is_business_term_in_fibo_labels. cbn [g]. rewrite Hl.
      unfold cleared. by rewrite Hex.
  - intros v u. apply resolve_subset. intros t Ht.
    apply elem_of_delete_dataset in Ht. tauto.
  - intros v. apply is_business_term_in_fibo_labels.
    unfold add_foreign_key_relationship.
    destruct (negb _ || negb _); [done|]. cbn [snd with_g g].
    destruct (truthy comment); rewrite !labels_add; done.
Qed.

(** ** Registering and deleting *)

(** With the rows of the term query in the order of [elements]: what
    [add_dataset] followed by [delete_dataset] leaves. *)
Lemma add_then_delete_closed (self : DCATCatalog)
    (identifier title description : string) (theme : option string)
    (keywords : option (list string)) (issued : option string)
    (business_terms : option (list string)) (fields : option (list field)) :
  plain_fields fields →
  fresh_bnodes self →
  (∀ t, t ∈ g self → subj t ≠ term DATASET_NS identifier) →
  (catalog self, term DCAT "dataset", term DATASET_NS identifier) ∉ g self →
  ∃ self', add_dataset self identifier title description theme keywords issued
             business_terms fields = Some (true, self')
    ∧ dataset_exists (delete_dataset self' identifier) identifier = false
    ∧ g (delete_dataset self' identifier)
      = g self ∪ theme_node_triples theme (next_bnode self)
        ∪ class_triples business_terms ∪ fields_classes (g self) (items fields).
Proof.
  intros Hp Hfresh Habs Hedge.
  assert (Hex : dataset_exists self identifier = false).
  { apply not_true_is_false. rewrite dataset_exists_spec. intros H. by apply (Habs _ H). }
  assert (Hcl : cleared identifier self = self) by (unfold cleared; by rewrite Hex).
  eexists. split; [by apply add_dataset_closed|].
  split; [apply dataset_exists_delete_dataset|]. rewrite Hcl.
  set (W := written identifier title description theme keywords issued business_terms
              fields (g self) (catalog self) (next_bnode self)).
  assert (Hfields := fields_of_store identifier title description theme keywords issued
                       business_terms fields (W ∪ g self) (g self) (g self)
                       (catalog_uri self) (next_bnode self) eq_refl Habs).
  apply set_eq. intros t. rewrite elem_of_delete_dataset. cbn [g catalog catalog_uri].
  rewrite Hfields. rewrite !elem_of_union. subst W. unfold written, other_triples.
  rewrite !elem_of_union, elem_of_singleton. split.
  - intros ([[Ht|[[[Ht|Ht]|Ht]|Ht]]|Ht] & Hne & Hnf & Hnc); [|tauto..| |tauto].
    + exfalso. apply subj_own in Ht as [[Hs _]|(i & Hi & [[Hs _]| ->])];
        [done|apply Hnf; by exists i|by apply Hne].
    + by destruct Hnc.
  - intros [[[Ht|Ht]|Ht]|Ht].
    + split; [tauto|]. split; [by apply Habs|]. split.
      * intros (i & _ & Hi). apply Hfresh in Ht. rewrite Hi in Ht. simpl in Ht. lia.
      * intros ->. by apply Hedge.
    + split; [tauto|]. apply elem_of_theme_node_triples in Ht as (th & Hth & Ht).
      assert (Htn : theme_nodes theme = 1) by (unfold theme_nodes; by rewrite Hth).
      destruct Ht as [-> | ->]; (split; [done|]; split; [|done]);
        intros (i & _ & [= Hi]); lia.
    + split; [tauto|].
      apply elem_of_list_to_set, list_elem_of_fmap in Ht as (x & -> & _).
      split; [apply fibo_ne_dataset|]. split; [|done]. by intros (i & _ & Hi).
    + split; [tauto|].
      apply elem_of_fields_classes in Ht as (f & _ & Ht).
      apply elem_of_bt_classes in Ht as (bt & m0 & rest & _ & _ & ->).
      split; [apply fibo_ne_dataset|]. split; [|done]. by intros (i & _ & Hi).
Qed.


(** X10: on a store that says nothing about the dataset, with [BNode()]
    fresh, [add_dataset] followed by [delete_dataset] does not give the
    store back: it leaves the store it started from and, more than that, the
    triples of the theme node, the class typing of the dataset's terms, and
    class typings of matches of the fields' labels: of matches only, and of
    one match at least for each label of a field that has a match. *)
Theorem add_then_delete_leftover (self : DCATCatalog)
    (identifier title description : string) (theme : option string)
    (keywords : option (list string)) (issued : option string)
    (business_terms : option (list string)) (fields : option (list field)) :
  plain_fields fields →
  fresh_bnodes self →
  (∀ t, t ∈ g self → subj t ≠ term DATASET_NS identifier) →
  (catalog self, term DCAT "dataset", term DATASET_NS identifier) ∉ g self →
  ∃ self' (typed : Graph),
    add_dataset self identifier title description theme keywords issued
      business_terms fields = Some (true, self')
    ∧ dataset_exists (delete_dataset self' identifier) identifier = false
    ∧ g (delete_dataset self' identifier)
      = g self ∪ theme_node_triples theme (next_bnode self)
        ∪ class_triples business_terms ∪ typed
    ∧ (∀ t, t ∈ typed →
         ∃ f bt u, f ∈ items fields ∧ bt ∈ items (field_business_terms f)
                   ∧ u ∈ resolve (g self) bt
                   ∧ t = (term FIBO_NS u, term RDF "type", term OWL "Class"))
    ∧ (∀ f bt, f ∈ items fields → bt ∈ items (field_business_terms f) →
               resolve (g self) bt ≠ [] →
               ∃ u, u ∈ resolve (g self) bt
                    ∧ (term FIBO_NS u, term RDF "type", term OWL "Class") ∈ typed).
Proof.
  intros Hp Hfresh Habs Hedge.
  destruct (add_then_delete_closed self identifier title description theme keywords
              issued business_terms fields Hp Hfresh Habs Hedge) as (self' & Ha & Hd & E).
  exists self', (fields_classes (g self) (items fields)).
  split; [exact Ha|]. split; [exact Hd|]. split; [exact E|]. split.
  - intros t Ht. apply elem_of_fields_classes in Ht as (f & Hf & Ht).
    apply elem_of_bt_classes in Ht as (bt & m0 & rest & Hbt & Hr & ->).
    exists f, bt, m0. split; [exact Hf|]. split; [exact Hbt|].
    split; [rewrite Hr; left|reflexivity].
  - intros f bt Hf Hbt Hne. destruct (resolve (g self) bt) as [|m0 rest] eqn:Hr; [done|].
    exists m0. split; [left|]. apply elem_of_fields_classes. exists f.
    split; [exact Hf|]. apply elem_of_bt_classes. by exists bt, m0, rest.
Qed.


(** ** [list_fibo_business_terms] *)

Lemma elem_of_filtered_label_rows fc G t :
  t ∈ filtered_label_rows fc G ↔ t ∈ G ∧ pred t = term RDFS "label" ∧ fc (obj t) = true.
Proof.
  unfold filtered_label_rows. rewrite elem_of_elements, elem_of_filter.
  rewrite Is_true_true. tauto.
Qed.

Lemma format_node_str lbl v : str lbl = Some v → format_node lbl = v.
Proof. destruct lbl; simpl; congruence. Qed.

(** X11: for a filter that the query text reads back as it is (or none),
    the call without limit returns a list, and [limit] is tested for truth:
    with [limit=0] the call returns that same list, not zero rows; a
    positive limit up to [sys.maxsize] gives the first rows of that list; a
    negative limit, and one above [sys.maxsize], give no list (the text is
    no query, [islice] raises).  An empty [filter] is no filter. *)
Theorem list_fibo_business_terms_limit (contains_lcase : node → string → bool)
    (self : DCATCatalog) (filter' : option string) (n : Z) :
  (∀ s, filter' = Some s → plain1 s = true) →
  ∃ all, list_fibo_business_terms contains_lcase self None filter' = Some all
    ∧ list_fibo_business_terms contains_lcase self (Some 0%Z) filter' = Some all
    ∧ ((0 < n ≤ sys_maxsize)%Z →
       list_fibo_business_terms contains_lcase self (Some n) filter'
       = Some (take (Z.to_nat n) all))
    ∧ ((n < 0 ∨ sys_maxsize < n)%Z →
       list_fibo_business_terms contains_lcase self (Some n) filter' = None)
    ∧ list_fibo_business_terms contains_lcase self (Some n) (Some "")
      = list_fibo_business_terms contains_lcase self (Some n) None.
Proof.
  intros Hf. unfold list_fibo_business_terms.
  destruct (truthy filter') as [s|] eqn:E.
  - apply truthy_Some in E as [-> _]. rewrite (Hf s eq_refl).
    eexists. split; [reflexivity|]. split; [reflexivity|]. split; [|split; [|done]].
    + intros Hn. rewrite bool_decide_eq_false_2 by lia. unfold limit_rows.
      rewrite bool_decide_eq_true_2 by lia. by rewrite fmap_take.
    + intros Hn. rewrite bool_decide_eq_false_2 by (unfold sys_maxsize in Hn; lia).
      unfold limit_rows. by rewrite bool_decide_eq_false_2 by lia.
  - eexists. split; [reflexivity|]. split; [reflexivity|]. split; [|split; [|done]].
    + intros Hn. rewrite bool_decide_eq_false_2 by lia. unfold limit_rows.
      rewrite bool_decide_eq_true_2 by lia. by rewrite fmap_take.
    + intros Hn. rewrite bool_decide_eq_false_2 by (unfold sys_maxsize in Hn; lia).
      unfold limit_rows. by rewrite bool_decide_eq_false_2 by lia.
Qed.

Lemma list_fibo_business_terms_limit_witness :
  ∃ all, list_fibo_business_terms (λ _ _, true) legal_entity_catalog None (Some "legal")
         = Some all
    ∧ list_fibo_business_terms (λ _ _, true) legal_entity_catalog (Some 0%Z) (Some "legal")
      = Some all
    ∧ list_fibo_business_terms (λ _ _, true) legal_entity_catalog (Some 5%Z) (Some "legal")
      = Some (take (Z.to_nat 5) all)
    ∧ list_fibo_business_terms (λ _ _, true) legal_entity_catalog (Some 5%Z) (Some "")
      = list_fibo_business_terms (λ _ _, true) legal_entity_catalog (Some 5%Z) None.
Proof.
  assert (Hf : ∀ s, Some "legal" = Some s → plain1 s = true)
    by (intros s [= <-]; reflexivity).
  destruct (list_fibo_business_terms_limit (λ _ _, true) legal_entity_catalog
              (Some "legal") 5%Z Hf) as (all & H1 & H2 & H3 & _ & H5).
  exists all. split; [exact H1|]. split; [exact H2|].
  split; [apply H3; unfold sys_maxsize; lia|exact H5].
Defined.

(** X12: without filter and limit the call returns one row for each label
    triple of the store, the identifier of the subject and the text of the
    label around [ --> ]; for a string that the text of the term query reads
    back as it is (no double quote, backslash, line break or tab), every
    identifier [is_business_term_in_fibo] returns is in a row with that
    string; and for a filter that the text reads back as it is (no single
    quote, backslash, line break or tab), the rows of the filtered call are
    among the rows of the call without filter. *)
Theorem list_fibo_business_terms_rows (contains_lcase : node → string → bool)
    (self : DCATCatalog) :
  ∃ rows, list_fibo_business_terms contains_lcase self None None = Some rows
    ∧ length rows = size (labels (g self))
    ∧ (∀ r, r ∈ rows ↔
         ∃ n lbl, (n, term RDFS "label", lbl) ∈ g self
                  ∧ r = format_node n +:+ " --> " +:+ format_node lbl)
    ∧ (∀ v ids u, plain v = true →
                  is_business_term_in_fibo self v = Some ids → u ∈ ids
                  → u +:+ " --> " +:+ v ∈ rows)
    ∧ (∀ s limit rows', plain1 s = true →
                        list_fibo_business_terms contains_lcase self limit (Some s)
                        = Some rows'
                        → ∀ r, r ∈ rows' → r ∈ rows).
Proof.
  eexists. split; [reflexivity|].
  assert (Hrows : ∀ fc r,
            r ∈ (λ row, format_node (subj row) +:+ " --> " +:+ format_node (obj row))
                <$> filtered_label_rows fc (g self)
            ↔ ∃ n lbl, (n, term RDFS "label", lbl) ∈ g self ∧ fc lbl = true
                       ∧ r = format_node n +:+ " --> " +:+ format_node lbl).
  { intros fc r. rewrite list_elem_of_fmap. split.
    - intros ([[n p] lbl] & -> & H). apply elem_of_filtered_label_rows in H as (H & Hp & Hf).
      unfold subj, pred, obj in *. cbn [fst snd] in *. subst p. by exists n, lbl.
    - intros (n & lbl & H & Hf & ->). exists (n, term RDFS "label", lbl).
      split; [done|]. by apply elem_of_filtered_label_rows. }
  split; [|split; [|split]].
  - rewrite length_fmap. unfold filtered_label_rows, labels.
    change (size (filter (λ t, pred t = term RDFS "label" ∧ true) (g self))
            = size (filter (λ t, pred t = term RDFS "label") (g self))).
    f_equal. apply set_eq. intros t. rewrite !elem_of_filter. simpl. tauto.
  - intros r. rewrite Hrows. split.
    + intros (n & lbl & H & _ & ->). by exists n, lbl.
    + intros (n & lbl & H & ->). by exists n, lbl.
  - intros v ids u _ Hids Hu. unfold is_business_term_in_fibo in Hids.
    destruct (plain v); [|done]. injection Hids as <-.
    change (u ∈ resolve (g self) v) in Hu.
    apply elem_of_resolve in Hu as (n & lbl & H & Hs & <-).
    apply Hrows. exists n, lbl. split; [done|]. split; [done|].
    by rewrite (format_node_str lbl v).
  - intros s limit rows' _ Hl r Hr. unfold list_fibo_business_terms in Hl.
    destruct (match truthy (Some s) with | Some _ => _ | None => _ end) as [fc|]; [|done].
    set (all := filtered_label_rows fc (g self)) in Hl.
    assert (Hsub : ∃ rs, rows' = (λ row, format_node (subj row) +:+ " --> "
                                          +:+ format_node (obj row)) <$> rs
                         ∧ ∀ t, t ∈ rs → t ∈ all).
    { destruct limit as [k|].
      - case_bool_decide; [injection Hl as <-; by exists all|].
        unfold limit_rows in Hl. case_bool_decide; [|done]. injection Hl as <-.
        exists (take (Z.to_nat k) all). split; [done|].
        intros t Ht. by apply (subseteq_take (Z.to_nat k) all).
      - injection Hl as <-. by exists all. }
    destruct Hsub as (rs & -> & Hrs).
    apply list_elem_of_fmap in Hr as (t & -> & Ht). apply Hrs in Ht.
    apply elem_of_filtered_label_rows in Ht as (Ht & Hp & _).
    apply Hrows. destruct t as [[n p] lbl]. unfold subj, pred, obj in *.
    cbn [fst snd] in *. subst p. by exists n, lbl.
Qed.

(** ** [rename_key] *)

(** X13: [rename_key] fails, with the key in its message, exactly when the
    old key is missing; otherwise the new key gets the value of the old one
    (a value it had is lost), the old key is gone, and every other key keeps
    its value. *)
Theorem rename_key_lookup {V} (dictionary : gmap string V) (old_key new_key : string) :
  match rename_key dictionary old_key new_key with
  | inr d' =>
      ∃ v, dictionary !! old_key = Some v
        ∧ d' !! new_key = Some v
        ∧ (old_key ≠ new_key → d' !! old_key = None)
        ∧ (∀ k, k ≠ old_key → k ≠ new_key → d' !! k = dictionary !! k)
  | inl e =>
      dictionary !! old_key = None
      ∧ e = KeyError ("Key '" +:+ old_key +:+ "' not found in dictionary")
  end.
Proof.
  unfold rename_key. destruct (dictionary !! old_key) as [v|] eqn:E; [|done].
  exists v. split; [done|]. split; [by rewrite lookup_insert_eq|]. split.
  - intros Hne. by rewrite lookup_insert_ne, lookup_delete_eq.
  - intros k H1 H2. by rewrite lookup_insert_ne, lookup_delete_ne.
Qed.

(** X14: renaming a key to one the dictionary does not have, and back,
    gives the dictionary again. *)
Theorem rename_key_round_trip {V} (dictionary : gmap string V) (old_key new_key : string) :
  is_Some (dictionary !! old_key) →
  dictionary !! new_key = None →
  ∃ d', rename_key dictionary old_key new_key = inr d'
    ∧ rename_key d' new_key old_key = inr dictionary.
Proof.
  intros [v Hv] Hnew. unfold rename_key. rewrite Hv. eexists. split; [reflexivity|].
  rewrite lookup_insert_eq. f_equal. apply map_eq. intros k.
  destruct (decide (k = old_key)) as [->|Hk]; [by rewrite lookup_insert_eq|].
  rewrite lookup_insert_ne by done.
  destruct (decide (k = new_key)) as [->|Hk']; [by rewrite lookup_delete_eq|].
  by rewrite lookup_delete_ne, lookup_insert_ne, lookup_delete_ne.
Qed.

Lemma rename_key_round_trip_witness :
  ∃ d', rename_key ({[ "schema_" := 1 ]} : gmap string nat) "schema_" "schema" = inr d'
    ∧ rename_key d' "schema" "schema_" = inr {[ "schema_" := 1 ]}.
Proof.
  apply (rename_key_round_trip ({[ "schema_" := 1 ]} : gmap string nat) "schema_" "schema").
  - by exists 1.
  - reflexivity.
Defined.


(** ** The theorems above at concrete stores *)

Lemma add_dataset_well_formed_witness :
  ∃ self', add_dataset legal_entity_catalog "orders" "Orders" "Order records"
             (Some "Finance") (Some ["a"]) (Some "2024-01-01") (Some ["LegalEntity"])
             (Some orders_fields) = Some (true, self')
    ∧ well_formed self'
    ∧ catalog self' = catalog legal_entity_catalog
    ∧ next_bnode self'
      = next_bnode legal_entity_catalog + theme_nodes (Some "Finance")
        + length (items (Some orders_fields)).
Proof.
  apply (add_dataset_well_formed legal_entity_catalog "orders" "Orders" "Order records"
           (Some "Finance") (Some ["a"]) (Some "2024-01-01") (Some ["LegalEntity"])
           (Some orders_fields)).
  - reflexivity.
  - split; [by_evaluation|split; [by_evaluation|split; [by_evaluation|reflexivity]]].
Defined.

Lemma delete_dataset_well_formed_witness :
  well_formed (delete_dataset two_datasets "a").
Proof.
  apply (delete_dataset_well_formed two_datasets "a").
  split; [by_evaluation|split; [by_evaluation|split; [by_evaluation|]]].
  vm_compute. reflexivity.
Defined.

Lemma add_foreign_key_relationship_well_formed_witness :
  well_formed (add_foreign_key_relationship two_datasets "a" "b" (Some "key")).2.
Proof.
  apply (add_foreign_key_relationship_well_formed two_datasets "a" "b" (Some "key")).
  split; [by_evaluation|split; [by_evaluation|split; [by_evaluation|]]].
  vm_compute. reflexivity.
Defined.

Lemma init_well_formed_witness :
  well_formed (init default_catalog_uri legal_entity_ontology 0).
Proof.
  apply (init_well_formed default_catalog_uri legal_entity_ontology 0).
  - by_evaluation.
  - apply (bool_decide_unpack
             (set_Forall (λ t, node_below 0 (subj t)) legal_entity_ontology)).
    vm_compute. exact I.
  - by_evaluation.
  - reflexivity.
Defined.

Lemma add_dataset_replaces_attributes_witness :
  let dataset := term DATASET_NS "a" in
  ∃ self', add_dataset two_datasets "a" "A2" "again" (Some "") (Some ["k"])
             (Some "2024-01-01") (Some ["LegalEntity"]) None = Some (true, self')
    ∧ dataset_exists self' "a" = true
    ∧ (catalog two_datasets, term DCAT "dataset", dataset) ∈ g self'
    ∧ (∀ o, (dataset, term DCTERMS "title", o) ∈ g self' ↔ o = Lit "A2")
    ∧ (∀ o, (dataset, term DCTERMS "description", o) ∈ g self' ↔ o = Lit "again")
    ∧ (∀ o, (dataset, term DCAT "keyword", o) ∈ g self'
            ↔ ∃ k, k ∈ items (Some ["k"]) ∧ o = Lit k)
    ∧ ((∃ o, (dataset, term DCTERMS "issued", o) ∈ g self')
       ↔ ∃ d, Some "2024-01-01" = Some d ∧ d ≠ "")
    ∧ (∀ o o', (dataset, term DCTERMS "issued", o) ∈ g self' →
               (dataset, term DCTERMS "issued", o') ∈ g self' →
               o = o' ∧ ∃ lexical, o = Literal lexical (Some (XSD +:+ "date")) None)
    ∧ (∀ o, (dataset, term RDFS "seeAlso", o) ∈ g self'
            ↔ ∃ x, x ∈ items (Some ["LegalEntity"]) ∧ o = term FIBO_NS x)
    ∧ (∀ o, (dataset, term DCAT "theme", o) ∈ g self'
            ↔ (∃ th, Some "" = Some th ∧ th ≠ "") ∧ o = BNode (next_bnode two_datasets)).
Proof.
  apply (add_dataset_replaces_attributes two_datasets "a" "A2" "again" (Some "")
           (Some ["k"]) (Some "2024-01-01") (Some ["LegalEntity"]) None).
  - reflexivity.
  - by_evaluation.
Defined.

Lemma add_dataset_keeps_other_datasets_witness :
  ∃ self', add_dataset two_datasets "a" "A2" "again" None None None None None
           = Some (true, self')
    ∧ (∀ t, subj t = term DATASET_NS "b" → (t ∈ g self' ↔ t ∈ g two_datasets))
    ∧ dataset_exists self' "b" = dataset_exists two_datasets "b".
Proof.
  apply (add_dataset_keeps_other_datasets two_datasets "a" "A2" "again" None None None
           None None "b").
  - reflexivity.
  - by_evaluation.
  - vm_compute. reflexivity.
  - discriminate.
Defined.

Lemma delete_dataset_keeps_other_datasets_witness :
  (∀ t, subj t = term DATASET_NS "b"
        → (t ∈ g (delete_dataset two_datasets "a") ↔ t ∈ g two_datasets))
  ∧ dataset_exists (delete_dataset two_datasets "a") "b" = dataset_exists two_datasets "b".
Proof.
  apply (delete_dataset_keeps_other_datasets two_datasets "a" "b").
  - by_evaluation.
  - vm_compute. reflexivity.
  - discriminate.
Defined.

Lemma add_dataset_field_nodes_witness :
  ∃ self', add_dataset legal_entity_catalog "orders" "Orders" "Order records"
             (Some "Finance") None None None (Some orders_fields) = Some (true, self')
    ∧ ∀ i f, items (Some orders_fields) !! i = Some f →
        let field_node :=
          BNode (next_bnode legal_entity_catalog + theme_nodes (Some "Finance") + i) in
        (term DATASET_NS "orders", term FIELD_NS "hasField", field_node) ∈ g self'
        ∧ (∀ o, (field_node, term RDF "type", o) ∈ g self' ↔ o = term FIELD_NS "Field")
        ∧ (∀ o, (field_node, term FIELD_NS "fieldName", o) ∈ g self'
                ↔ o = Lit (field_name f))
        ∧ (∀ o, (field_node, term FIELD_NS "fieldType", o) ∈ g self'
                ↔ o = Lit (field_type f))
        ∧ (∀ o, (field_node, term FIELD_NS "fieldDescription", o) ∈ g self'
                ↔ ∃ d, field_description f = Some d ∧ o = Lit d)
        ∧ ((∃ o, (field_node, term FIELD_NS "hasBusinessTerm", o) ∈ g self')
           ↔ ∃ bt, bt ∈ items (field_business_terms f)
                   ∧ resolve (g (cleared "orders" legal_entity_catalog)) bt ≠ []).
Proof.
  apply (add_dataset_field_nodes legal_entity_catalog "orders" "Orders" "Order records"
           (Some "Finance") None None None (Some orders_fields)).
  - reflexivity.
  - by_evaluation.
Defined.

Lemma operations_add_no_labels_witness :
  (∃ self', add_dataset legal_entity_catalog "orders" "Orders" "Order records" None None
              None None (Some orders_fields) = Some (true, self')
     ∧ labels (g self') = labels (g (cleared "orders" legal_entity_catalog))
     ∧ (∀ v u, u ∈ resolve (g self') v → u ∈ resolve (g legal_entity_catalog) v)
     ∧ (dataset_exists legal_entity_catalog "orders" = false
        → ∀ v, is_business_term_in_fibo self' v
               = is_business_term_in_fibo legal_entity_catalog v))
  ∧ (∀ v u, u ∈ resolve (g (delete_dataset legal_entity_catalog "orders")) v
            → u ∈ resolve (g legal_entity_catalog) v)
  ∧ (∀ v, is_business_term_in_fibo
            (add_foreign_key_relationship legal_entity_catalog "a" "b" None).2 v
          = is_business_term_in_fibo legal_entity_catalog v).
Proof.
  apply (operations_add_no_labels legal_entity_catalog "orders" "Orders" "Order records"
           None None None None (Some orders_fields) "a" "b" None).
  reflexivity.
Defined.

Lemma add_then_delete_leftover_witness :
  ∃ self' (typed : Graph),
    add_dataset legal_entity_catalog "orders" "Orders" "Order records"
      (Some "Finance") None None (Some ["LegalEntity"]) (Some orders_fields)
    = Some (true, self')
    ∧ dataset_exists (delete_dataset self' "orders") "orders" = false
    ∧ g (delete_dataset self' "orders")
      = g legal_entity_catalog
        ∪ theme_node_triples (Some "Finance") (next_bnode legal_entity_catalog)
        ∪ class_triples (Some ["LegalEntity"]) ∪ typed
    ∧ (∀ t, t ∈ typed →
         ∃ f bt u, f ∈ items (Some orders_fields) ∧ bt ∈ items (field_business_terms f)
                   ∧ u ∈ resolve (g legal_entity_catalog) bt
                   ∧ t = (term FIBO_NS u, term RDF "type", term OWL "Class"))
    ∧ (∀ f bt, f ∈ items (Some orders_fields) → bt ∈ items (field_business_terms f) →
               resolve (g legal_entity_catalog) bt ≠ [] →
               ∃ u, u ∈ resolve (g legal_entity_catalog) bt
                    ∧ (term FIBO_NS u, term RDF "type", term OWL "Class") ∈ typed).
Proof.
  apply (add_then_delete_leftover legal_entity_catalog "orders" "Orders" "Order records"
           (Some "Finance") None None (Some ["LegalEntity"]) (Some orders_fields)).
  - reflexivity.
  - by_evaluation.
  - apply (bool_decide_unpack
             (set_Forall (λ t, subj t ≠ term DATASET_NS "orders")
                (g legal_entity_catalog))).
    vm_compute. exact I.
  - by_evaluation.
Defined.
